(** * POSIX-Pipeline: a registration pipeline over one POSIX message queue

    Shallow embedding of [main.c].  Three child processes (frontend, database,
    logger) share the single queue [/student_reg_queue]; every message carries
    a type field and a process that dequeues a message of the wrong type puts
    it back.  The parent opens the queue, creating it when it does not exist,
    forks the children, waits for three terminations and removes the queue.

    Each process is embedded as a resumption machine: its state is the
    blocking call it is suspended in together with its local variables, and
    the C code that runs between two blocking calls is a pure function of the
    value the call returned.  The processes are composed by an interleaving
    step function over the shared queue; the scheduler and the success or
    failure of every call are the only sources of non-determinism.

    The program starts in an [environment]: the name [/student_reg_queue]
    denotes no queue, or it denotes a queue left behind by an earlier run,
    with its messages and its own [mq_maxmsg].  [main] ignores the value of
    its first [mq_unlink] and calls [mq_open] with [O_CREAT] but without
    [O_EXCL], so a queue that the [mq_unlink] did not remove is opened as it
    is, messages and attributes included.

    What is assumed of the operating system: [mq_unlink] succeeds only on a
    name that exists and then destroys the queue (no process outside the
    program has it open or uses it while the program runs); [mq_open]
    creates an empty queue with the attributes passed when the name does not
    exist; the messages of a surviving queue have the size of
    [struct studentMessage]; messages of equal priority are delivered
    first-in first-out; [mq_send] blocks while the queue holds as many
    messages as its [mq_maxmsg] and [mq_receive] blocks while it holds none;
    any call may instead fail and return -1, leaving the queue as it was;
    [wait] returns once for each terminated child.  A call takes effect and
    returns in one step, and the event of the trace stands for that step; a
    process is in an [exited] state from the return of its last call on,
    since nothing but [printf], [perror] and [exit] follows.  [sleep] is not
    modelled. *)

From Stdlib Require Import ZArith List Lia Sorted.
From stdpp Require Import base option list strings.
Import ListNotations.

Local Open Scope Z_scope.

(** ** C integers *)

(** [int] is 32 bits wide; [int_wrap] is the two's complement wrap-around. *)
Definition int_wrap (z : Z) : Z := (z + 2 ^ 31) mod 2 ^ 32 - 2 ^ 31.
Definition int_add (a b : Z) : Z := int_wrap (a + b).

(** ** Data *)

Definition queueName : string := "/student_reg_queue"%string.
Definition studentCount : Z := 3.

(** [struct studentMessage]; [msg_type = 1] is a student submission
    (frontend to database), [msg_type = 2] a confirmed registration
    (database to logger). *)
Record studentMessage : Type := mkMsg {
  msg_type : Z;
  studentName : string;
  rollNo : Z
}.

(** The local array of [runFrontendProcess]. *)
Definition students : list string :=
  ["Alice"%string; "Bob"%string; "Charlie"%string].

(** [queueAttributes.mq_maxmsg]. *)
Definition mq_maxmsg : nat := 10.

(** What the name [queueName] denotes when the program starts: no queue, or
    a queue left by an earlier run, given by its messages, in the order in
    which [mq_receive] delivers them, and the number of slots still free, so
    that its [mq_maxmsg] is [length msgs + room]. *)
Inductive environment : Type :=
  | no_queue
  | stale_queue (msgs : list studentMessage) (room : nat).

(** ** Observable events *)

Inductive actor : Type := Main | Frontend | Database | Logger.

#[global] Instance actor_eq_dec : EqDecision actor.
Proof. solve_decision. Defined.

(** The three purposes [mq_send] is called for: the frontend's submission,
    the put-back of a message of the wrong type, the database's
    confirmation. *)
Inductive send_site : Type := Submit | Requeue | Confirm.

(** Lines written by [printf], without the elapsed seconds. *)
Inductive output_line : Type :=
  | Sending (name : string)
  | AllSubmitted
  | StartProcessing (name : string)
  | FinishedProcessing (name : string) (id : Z)
  | Confirmed (id : Z) (name : string).

Inductive event : Type :=
  | mq_unlink (r : Z)
  | mq_open (r : Z)
  | fork (child : actor) (r : Z)
  | wait
  | mq_close (r : Z)
  | mq_send (site : send_site) (msg : studentMessage) (r : Z)
  | mq_receive (r : option studentMessage)
  | printf (line : output_line)
  | perror (who : actor)
  | exit (code : Z).

(** ** The frontend: [runFrontendProcess] *)

Inductive frontend_pc : Type :=
  | F_mq_send (i : Z) (msg : studentMessage)
  | F_exited (code : Z).

(** Head of the [for] loop up to the call of [mq_send]. *)
Definition frontend_iter (i : Z) : frontend_pc * list event :=
  if i <? studentCount then
    let msg := {| msg_type := 1;
                  studentName := nth (Z.to_nat i) students EmptyString;
                  rollNo := 0 |} in
    (F_mq_send i msg, [printf (Sending (studentName msg))])
  else (F_exited 0, [printf AllSubmitted; exit 0]).

(** Return from [mq_send] with value [r]. *)
Definition frontend_after_send (i : Z) (r : Z) : frontend_pc * list event :=
  if r =? -1 then (F_exited 1, [perror Frontend; exit 1])
  else frontend_iter (int_add i 1).

Definition runFrontendProcess : frontend_pc * list event := frontend_iter 0.

(** ** The database: [runDatabaseProcess] *)

Inductive database_pc : Type :=
  | D_mq_receive (processedCount : Z)
  | D_requeue (processedCount : Z) (msg : studentMessage)
  | D_mq_send (processedCount : Z) (msg : studentMessage)
  | D_exited (code : Z).

(** Test of the [while] loop. *)
Definition database_loop (processedCount : Z) : database_pc * list event :=
  if processedCount <? studentCount then (D_mq_receive processedCount, [])
  else (D_exited 0, [exit 0]).

(** Return from [mq_receive]: [None] is the value -1. *)
Definition database_after_receive (processedCount : Z) (r : option studentMessage)
  : database_pc * list event :=
  match r with
  | None => (D_exited 1, [perror Database; exit 1])
  | Some msg =>
      if negb (msg_type msg =? 1) then (D_requeue processedCount msg, [])
      else
        let id := int_add 1001 processedCount in
        (D_mq_send processedCount
           {| msg_type := 2; studentName := studentName msg; rollNo := id |},
         [printf (StartProcessing (studentName msg));
          printf (FinishedProcessing (studentName msg) id)])
  end.

(** Return from the put-back [mq_send]: the value is not inspected. *)
Definition database_after_requeue (processedCount : Z) (r : Z)
  : database_pc * list event :=
  database_loop processedCount.

(** Return from the [mq_send] of the confirmation. *)
Definition database_after_send (processedCount : Z) (r : Z)
  : database_pc * list event :=
  if r =? -1 then (D_exited 1, [perror Database; exit 1])
  else database_loop (int_add processedCount 1).

Definition runDatabaseProcess : database_pc * list event := database_loop 0.

(** ** The logger: [runLoggerProcess] *)

Inductive logger_pc : Type :=
  | L_mq_receive (loggedCount : Z)
  | L_requeue (loggedCount : Z) (msg : studentMessage)
  | L_exited (code : Z).

Definition logger_loop (loggedCount : Z) : logger_pc * list event :=
  if loggedCount <? studentCount then (L_mq_receive loggedCount, [])
  else (L_exited 0, [exit 0]).

Definition logger_after_receive (loggedCount : Z) (r : option studentMessage)
  : logger_pc * list event :=
  match r with
  | None => (L_exited 1, [perror Logger; exit 1])
  | Some msg =>
      if negb (msg_type msg =? 2) then (L_requeue loggedCount msg, [])
      else
        let '(pc, evs) := logger_loop (int_add loggedCount 1) in
        (pc, printf (Confirmed (rollNo msg) (studentName msg)) :: evs)
  end.

Definition logger_after_requeue (loggedCount : Z) (r : Z)
  : logger_pc * list event :=
  logger_loop loggedCount.

Definition runLoggerProcess : logger_pc * list event := logger_loop 0.

(** ** The parent: [main] *)

Inductive main_pc : Type :=
  | M_mq_unlink_stale
  | M_mq_open
  | M_fork_frontend
  | M_fork_database
  | M_fork_logger
  | M_wait (returned : nat)
  | M_mq_close
  | M_mq_unlink
  | M_exited (code : Z).

(** Return of the call [main] is suspended in, with value [r]. *)
Definition main_resume (pc : main_pc) (r : Z) : main_pc * list event :=
  match pc with
  | M_mq_unlink_stale => (M_mq_open, [])
  | M_mq_open =>
      if r =? -1 then (M_exited 1, [perror Main; exit 1]) else (M_fork_frontend, [])
  | M_fork_frontend =>
      if r <? 0 then (M_exited 1, [perror Main; exit 1]) else (M_fork_database, [])
  | M_fork_database =>
      if r <? 0 then (M_exited 1, [perror Main; exit 1]) else (M_fork_logger, [])
  | M_fork_logger =>
      if r <? 0 then (M_exited 1, [perror Main; exit 1]) else (M_wait 0, [])
  | M_wait returned =>
      if (returned <? 2)%nat then (M_wait (S returned), []) else (M_mq_close, [])
  | M_mq_close =>
      if r =? -1 then (M_exited 1, [perror Main; exit 1]) else (M_mq_unlink, [])
  | M_mq_unlink =>
      if r =? -1 then (M_exited 1, [perror Main; exit 1]) else (M_exited 0, [exit 0])
  | M_exited code => (M_exited code, [])
  end.

(** ** The queue *)

(** All messages are sent with priority 0, so the queue is first-in
    first-out.  A call may fail ([ok = false], value -1, queue untouched);
    otherwise [mq_send] needs a free slot among the [maxmsg] of the queue and
    [mq_receive] a message, and the caller stays blocked ([None]) until there
    is one. *)
Definition sys_mq_send (maxmsg : nat) (ok : bool) (msg : studentMessage)
    (q : list studentMessage) : option (list studentMessage * Z) :=
  if ok then
    if (length q <? maxmsg)%nat then Some (q ++ [msg], 0) else None
  else Some (q, -1).

Definition sys_mq_receive (ok : bool) (q : list studentMessage)
  : option (list studentMessage * option studentMessage) :=
  if ok then
    match q with
    | [] => None
    | msg :: q' => Some (q', Some msg)
    end
  else Some (q, None).

(** ** The system of four processes *)

(** [linked] tells whether the name [queueName] denotes a queue; [mq] and
    [maxmsg] are the messages and the [mq_maxmsg] attribute of that queue,
    which is also the queue the descriptor of [main] and of its children
    refers to.  Without a queue [mq] is empty and [maxmsg] is 0. *)
Record system : Type := mkSystem {
  linked : bool;
  mq : list studentMessage;
  maxmsg : nat;
  parent : main_pc;
  frontend : option frontend_pc;
  database : option database_pc;
  logger : option logger_pc;
  trace : list (actor * event)
}.

Definition init_system (env : environment) : system :=
  match env with
  | no_queue =>
      {| linked := false; mq := []; maxmsg := 0; parent := M_mq_unlink_stale;
         frontend := None; database := None; logger := None; trace := [] |}
  | stale_queue msgs room =>
      {| linked := true; mq := msgs; maxmsg := (length msgs + room)%nat;
         parent := M_mq_unlink_stale;
         frontend := None; database := None; logger := None; trace := [] |}
  end.

Definition by_actor (a : actor) (evs : list event) : list (actor * event) :=
  map (pair a) evs.

Definition frontend_exited (s : system) : bool :=
  match frontend s with Some (F_exited _) => true | _ => false end.
Definition database_exited (s : system) : bool :=
  match database s with Some (D_exited _) => true | _ => false end.
Definition logger_exited (s : system) : bool :=
  match logger s with Some (L_exited _) => true | _ => false end.

(** Terminated children, whether waited for or not. *)
Definition exited_children (s : system) : nat :=
  (Nat.b2n (frontend_exited s) + Nat.b2n (database_exited s)
   + Nat.b2n (logger_exited s))%nat.

Definition ret (ok : bool) (success : Z) : Z := if ok then success else -1.

(** A step of the parent.  [mq_unlink] succeeds only when the name exists
    and then removes the queue; [mq_open] opens the queue the name denotes
    as it is, and creates an empty one with [mq_maxmsg] slots only when the
    name denotes none ([O_CREAT] without [O_EXCL]).  A successful [fork]
    creates the child at the start of its function, with the lines it prints
    before its first blocking call; [wait] returns only when a terminated
    child has not been waited for yet. *)
Definition main_step (ok : bool) (s : system) : option system :=
  let continue (e : event) (r : Z) (named : bool) (q : list studentMessage)
               (slots : nat)
               (f : option frontend_pc) (d : option database_pc)
               (l : option logger_pc) (born : list (actor * event)) :=
    let '(pc, evs) := main_resume (parent s) r in
    Some {| linked := named; mq := q; maxmsg := slots; parent := pc;
            frontend := f; database := d; logger := l;
            trace := trace s ++ by_actor Main (e :: evs) ++ born |} in
  let call (e : event) (r : Z) :=
    continue e r (linked s) (mq s) (maxmsg s)
             (frontend s) (database s) (logger s) [] in
  let unlink :=
    if ok then
      if linked s then
        continue (mq_unlink 0) 0 false [] 0%nat
                 (frontend s) (database s) (logger s) []
      else None
    else call (mq_unlink (-1)) (-1) in
  match parent s with
  | M_mq_unlink_stale => unlink
  | M_mq_open =>
      if ok then
        if linked s then call (mq_open 3) 3
        else continue (mq_open 3) 3 true [] mq_maxmsg
                      (frontend s) (database s) (logger s) []
      else call (mq_open (-1)) (-1)
  | M_fork_frontend =>
      if ok then
        let '(pc, evs) := runFrontendProcess in
        continue (fork Frontend 101) 101 (linked s) (mq s) (maxmsg s)
                 (Some pc) (database s) (logger s) (by_actor Frontend evs)
      else call (fork Frontend (-1)) (-1)
  | M_fork_database =>
      if ok then
        let '(pc, evs) := runDatabaseProcess in
        continue (fork Database 102) 102 (linked s) (mq s) (maxmsg s)
                 (frontend s) (Some pc) (logger s) (by_actor Database evs)
      else call (fork Database (-1)) (-1)
  | M_fork_logger =>
      if ok then
        let '(pc, evs) := runLoggerProcess in
        continue (fork Logger 103) 103 (linked s) (mq s) (maxmsg s)
                 (frontend s) (database s) (Some pc) (by_actor Logger evs)
      else call (fork Logger (-1)) (-1)
  | M_wait returned =>
      if ok && (returned <? exited_children s)%nat then call wait 0
      else None
  | M_mq_close => call (mq_close (ret ok 0)) (ret ok 0)
  | M_mq_unlink => unlink
  | M_exited _ => None
  end.

Definition frontend_step (ok : bool) (s : system) : option system :=
  match frontend s with
  | Some (F_mq_send i msg) =>
      match sys_mq_send (maxmsg s) ok msg (mq s) with
      | Some (q, r) =>
          let '(pc, evs) := frontend_after_send i r in
          Some {| linked := linked s; mq := q; maxmsg := maxmsg s;
                  parent := parent s; frontend := Some pc;
                  database := database s; logger := logger s;
                  trace := trace s ++ by_actor Frontend (mq_send Submit msg r :: evs) |}
      | None => None
      end
  | _ => None
  end.

Definition database_step (ok : bool) (s : system) : option system :=
  let continue (q : list studentMessage) (e : event)
               (next : database_pc * list event) :=
    Some {| linked := linked s; mq := q; maxmsg := maxmsg s;
            parent := parent s; frontend := frontend s;
            database := Some (fst next); logger := logger s;
            trace := trace s ++ by_actor Database (e :: snd next) |} in
  match database s with
  | Some (D_mq_receive k) =>
      match sys_mq_receive ok (mq s) with
      | Some (q, r) => continue q (mq_receive r) (database_after_receive k r)
      | None => None
      end
  | Some (D_requeue k msg) =>
      match sys_mq_send (maxmsg s) ok msg (mq s) with
      | Some (q, r) => continue q (mq_send Requeue msg r) (database_after_requeue k r)
      | None => None
      end
  | Some (D_mq_send k msg) =>
      match sys_mq_send (maxmsg s) ok msg (mq s) with
      | Some (q, r) => continue q (mq_send Confirm msg r) (database_after_send k r)
      | None => None
      end
  | _ => None
  end.

Definition logger_step (ok : bool) (s : system) : option system :=
  let continue (q : list studentMessage) (e : event)
               (next : logger_pc * list event) :=
    Some {| linked := linked s; mq := q; maxmsg := maxmsg s;
            parent := parent s; frontend := frontend s;
            database := database s; logger := Some (fst next);
            trace := trace s ++ by_actor Logger (e :: snd next) |} in
  match logger s with
  | Some (L_mq_receive k) =>
      match sys_mq_receive ok (mq s) with
      | Some (q, r) => continue q (mq_receive r) (logger_after_receive k r)
      | None => None
      end
  | Some (L_requeue k msg) =>
      match sys_mq_send (maxmsg s) ok msg (mq s) with
      | Some (q, r) => continue q (mq_send Requeue msg r) (logger_after_requeue k r)
      | None => None
      end
  | _ => None
  end.

(** One scheduling decision: which process returns from its pending call,
    and whether the call succeeded. *)
Definition step (a : actor) (ok : bool) (s : system) : option system :=
  match a with
  | Main => main_step ok s
  | Frontend => frontend_step ok s
  | Database => database_step ok s
  | Logger => logger_step ok s
  end.

Fixpoint run (sched : list (actor * bool)) (s : system) : option system :=
  match sched with
  | [] => Some s
  | (a, ok) :: sched' =>
      match step a ok s with
      | Some s' => run sched' s'
      | None => None
      end
  end.

(** ** Projections of the trace *)

(** A call that returned -1 had no effect. *)
Definition succeeded (r : Z) : bool := negb (r =? -1).

Definition submission_sent (x : actor * event) : option studentMessage :=
  match x with
  | (Frontend, mq_send Submit msg r) => if succeeded r then Some msg else None
  | _ => None
  end.

Definition confirmation_sent (x : actor * event) : option studentMessage :=
  match x with
  | (Database, mq_send Confirm msg r) => if succeeded r then Some msg else None
  | _ => None
  end.

(** What any process put on the queue, put-backs included. *)
Definition placed_on_queue (x : actor * event) : option studentMessage :=
  match x with
  | (_, mq_send _ msg r) => if succeeded r then Some msg else None
  | _ => None
  end.

(** Messages the database took off the queue and processed. *)
Definition accepted_by_database (x : actor * event) : option studentMessage :=
  match x with
  | (Database, mq_receive (Some msg)) =>
      if msg_type msg =? 1 then Some msg else None
  | _ => None
  end.

(** The "Assigned ID" lines of the database, as (id, name). *)
Definition assignment (x : actor * event) : option (Z * string) :=
  match x with
  | (Database, printf (FinishedProcessing name id)) => Some (id, name)
  | _ => None
  end.

(** The "CONFIRMED" lines of the logger, as (id, name). *)
Definition confirmation_logged (x : actor * event) : option (Z * string) :=
  match x with
  | (Logger, printf (Confirmed id name)) => Some (id, name)
  | _ => None
  end.

Definition submissions_sent (t : list (actor * event)) := omap submission_sent t.
Definition confirmations_sent (t : list (actor * event)) := omap confirmation_sent t.
Definition placed (t : list (actor * event)) := omap placed_on_queue t.
Definition accepted (t : list (actor * event)) := omap accepted_by_database t.
Definition assigned (t : list (actor * event)) := omap assignment t.
Definition logged (t : list (actor * event)) := omap confirmation_logged t.

(** The [mq_send] calls of one process: purpose, message, value returned. *)
Definition sends_of (a : actor) (t : list (actor * event))
  : list (send_site * studentMessage * Z) :=
  omap (λ x, match x with
             | (b, mq_send site msg r) =>
                 if decide (b = a) then Some (site, msg, r) else None
             | _ => None
             end) t.

(** The calls of one process, in order. *)
Definition calls_of (a : actor) (t : list (actor * event)) : list event :=
  omap (λ x, if decide (x.1 = a) then Some x.2 else None) t.

(** ** Messages and records *)

Definition submission (name : string) : studentMessage :=
  {| msg_type := 1; studentName := name; rollNo := 0 |}.

Definition confirmation (p : Z * string) : studentMessage :=
  {| msg_type := 2; studentName := p.2; rollNo := p.1 |}.

(** The (id, name) a message carries. *)
Definition record_of (msg : studentMessage) : Z * string :=
  (rollNo msg, studentName msg).

Definition is_submission (msg : studentMessage) : bool := msg_type msg =? 1.
Definition is_confirmation (msg : studentMessage) : bool := msg_type msg =? 2.

(** A message taken off the queue by a process that is about to put it back. *)
Definition held (s : system) : list studentMessage :=
  match database s with Some (D_requeue _ msg) => [msg] | _ => [] end
  ++ match logger s with Some (L_requeue _ msg) => [msg] | _ => [] end.

(** A message built by a process that is about to send it. *)
Definition pending (s : system) : list studentMessage :=
  match frontend s with Some (F_mq_send _ msg) => [msg] | _ => [] end
  ++ match database s with Some (D_mq_send _ msg) => [msg] | _ => [] end.

Definition in_flight (s : system) : list studentMessage := mq s ++ held s.

(** The tag decides the id: unset on a submission, set on a confirmation. *)
Definition well_tagged (msg : studentMessage) : Prop :=
  (msg_type msg = 1 → rollNo msg = 0) ∧ (msg_type msg = 2 → rollNo msg ≠ 0).

(** All three children terminated, with these statuses. *)
Definition workers_exited (s : system) (cf cd cl : Z) : Prop :=
  frontend s = Some (F_exited cf) ∧ database s = Some (D_exited cd)
  ∧ logger s = Some (L_exited cl).

(** All three children terminated with status 0. *)
Definition workers_succeeded (s : system) : Prop :=
  frontend s = Some (F_exited 0) ∧ database s = Some (D_exited 0)
  ∧ logger s = Some (L_exited 0).

(** ** Kinds of calls, for the order of the parent's life cycle *)

Inductive call_kind : Type :=
  | K_unlink | K_open | K_fork (child : actor) | K_wait | K_close
  | K_send | K_receive.

Definition kind_of (e : event) : option call_kind :=
  match e with
  | mq_unlink _ => Some K_unlink
  | mq_open _ => Some K_open
  | fork child _ => Some (K_fork child)
  | wait => Some K_wait
  | mq_close _ => Some K_close
  | mq_send _ _ _ => Some K_send
  | mq_receive _ => Some K_receive
  | printf _ | perror _ | exit _ => None
  end.

(** The order of the calls in [main]. *)
Definition main_script : list call_kind :=
  [K_unlink; K_open; K_fork Frontend; K_fork Database; K_fork Logger;
   K_wait; K_wait; K_wait; K_close; K_unlink].

(** ** Schedules used as examples *)

(** The parent up to the third [fork]; the first [mq_unlink] fails. *)
Definition setup : list (actor * bool) :=
  [(Main, false); (Main, true); (Main, true); (Main, true); (Main, true)].

Definition teardown : list (actor * bool) :=
  [(Main, true); (Main, true); (Main, true); (Main, true); (Main, true)].

(** Every process runs to completion in turn. *)
Definition nominal_schedule : list (actor * bool) :=
  setup
  ++ [(Frontend, true); (Frontend, true); (Frontend, true)]
  ++ [(Database, true); (Database, true); (Database, true);
      (Database, true); (Database, true); (Database, true)]
  ++ [(Logger, true); (Logger, true); (Logger, true)]
  ++ teardown.

(** The database dequeues its first confirmation while the second is behind
    it and puts it back at the tail. *)
Definition overtaking_schedule : list (actor * bool) :=
  setup
  ++ [(Frontend, true); (Frontend, true)]
  ++ [(Database, true); (Database, true); (Database, true); (Database, true)]
  ++ [(Database, true); (Database, true)]
  ++ [(Frontend, true)]
  ++ [(Logger, true); (Logger, true)]
  ++ [(Database, true); (Database, true)]
  ++ [(Logger, true)]
  ++ teardown.

(** Every call of every child fails at once; the parent's calls succeed. *)
Definition failing_schedule : list (actor * bool) :=
  setup ++ [(Frontend, false); (Database, false); (Logger, false)] ++ teardown.

(** The database's put-back of its own first confirmation fails. *)
Definition lost_requeue_schedule : list (actor * bool) :=
  setup
  ++ [(Frontend, true)]
  ++ [(Database, true); (Database, true)]
  ++ [(Database, true); (Database, false)]
  ++ [(Frontend, true); (Frontend, true)]
  ++ [(Database, true); (Database, true); (Database, true); (Database, true)].

(** All records are logged and the parent has waited three times. *)
Definition pipeline_done_schedule : list (actor * bool) :=
  setup
  ++ [(Frontend, true); (Frontend, true); (Frontend, true)]
  ++ [(Database, true); (Database, true); (Database, true);
      (Database, true); (Database, true); (Database, true)]
  ++ [(Logger, true); (Logger, true); (Logger, true)]
  ++ [(Main, true); (Main, true); (Main, true)].

(** All records are logged, then [mq_close] fails. *)
Definition close_fails_schedule : list (actor * bool) :=
  pipeline_done_schedule ++ [(Main, false)].

(** All records are logged, then the final [mq_unlink] fails. *)
Definition unlink_fails_schedule : list (actor * bool) :=
  pipeline_done_schedule ++ [(Main, true); (Main, false)].

(** The states these schedules lead to when no queue exists at the start. *)
Definition state_after (sched : list (actor * bool)) : system :=
  default (init_system no_queue) (run sched (init_system no_queue)).

Definition nominal_final : system :=
  Eval vm_compute in state_after nominal_schedule.

Definition pipeline_done : system :=
  Eval vm_compute in state_after pipeline_done_schedule.


(** The first confirmation is alone on the queue and the database is about
    to receive again. *)
Definition first_confirmation_queued : system :=
  Eval vm_compute in
    state_after (setup ++ [(Frontend, true); (Database, true); (Database, true)]).

(** ** Invariants of the reachable states *)

Inductive reachable (env : environment) : system → Prop :=
  | reachable_init : reachable env (init_system env)
  | reachable_step a ok s s' :
      reachable env s → step a ok s = Some s' → reachable env s'.

(** The calls of [main] when every one of them succeeds; [r0] is the value of
    the first [mq_unlink], which [main] does not look at. *)
Definition success_calls (r0 : Z) : list event :=
  [mq_unlink r0; mq_open 3; fork Frontend 101; fork Database 102;
   fork Logger 103; wait; wait; wait; mq_close 0; mq_unlink 0].

(** The calls after which [main] prints an error and exits with status 1,
    with their position in [main_script]. *)
Definition main_failures : list (nat * event) :=
  [(1%nat, mq_open (-1)); (2%nat, fork Frontend (-1));
   (3%nat, fork Database (-1)); (4%nat, fork Logger (-1));
   (8%nat, mq_close (-1)); (9%nat, mq_unlink (-1))].

Definition no_children (s : system) : Prop :=
  frontend s = None ∧ database s = None ∧ logger s = None.

(** The parent's own calls so far, the children that exist and the children
    that have terminated, at each point of [main]. *)
Definition main_inv (s : system) : Prop :=
  ∃ r0 : Z,
    let calls := calls_of Main (trace s) in
    match parent s with
    | M_mq_unlink_stale => calls = [] ∧ no_children s
    | M_mq_open => calls = take 1 (success_calls r0) ∧ no_children s
    | M_fork_frontend => calls = take 2 (success_calls r0) ∧ no_children s
    | M_fork_database =>
        calls = take 3 (success_calls r0)
        ∧ is_Some (frontend s) ∧ database s = None ∧ logger s = None
    | M_fork_logger =>
        calls = take 4 (success_calls r0)
        ∧ is_Some (frontend s) ∧ is_Some (database s) ∧ logger s = None
    | M_wait returned =>
        calls = take (5 + returned) (success_calls r0)
        ∧ is_Some (frontend s) ∧ is_Some (database s) ∧ is_Some (logger s)
        ∧ (returned ≤ exited_children s)%nat ∧ (returned < 3)%nat
    | M_mq_close =>
        calls = take 8 (success_calls r0) ∧ exited_children s = 3%nat
    | M_mq_unlink =>
        calls = take 9 (success_calls r0) ∧ exited_children s = 3%nat
    | M_exited code =>
        (code = 0 ∧ calls = success_calls r0 ++ [exit 0]
         ∧ exited_children s = 3%nat)
        ∨ (code = 1
           ∧ ∃ (n : nat) (e : event),
               calls = take n (success_calls r0) ++ [e; perror Main; exit 1]
               ∧ (n, e) ∈ main_failures
               ∧ ((8 ≤ n)%nat → exited_children s = 3%nat)
               ∧ ((n ≤ 4)%nat → logger s = None))
    end.

(** Children only send, receive, print and exit; the parent never sends or
    receives. *)
Definition alphabet_inv (s : system) : Prop :=
  ∀ a e, (a, e) ∈ trace s →
    match a with
    | Main => kind_of e ≠ Some K_send ∧ kind_of e ≠ Some K_receive
    | _ => kind_of e = None ∨ kind_of e = Some K_send
           ∨ kind_of e = Some K_receive
    end.

(** The frontend has sent the first [n] names, in order. *)
Definition frontend_inv (s : system) : Prop :=
  ∃ n : nat,
    submissions_sent (trace s) = map submission (take n students)
    ∧ match frontend s with
      | None => n = 0%nat
      | Some (F_mq_send i msg) =>
          i = Z.of_nat n ∧ (n < 3)%nat
          ∧ msg = submission (nth n students EmptyString)
      | Some (F_exited code) => code = 0 → n = 3%nat
      end.

(** Identifiers count up from 1001 in the order of assignment, each is
    printed with the name of the accepted submission, and the confirmations
    sent are the assignments made, up to the one being sent. *)
Definition database_inv (s : system) : Prop :=
  let asg := assigned (trace s) in
  map fst asg = map (λ j : nat, 1001 + Z.of_nat j) (seq 0 (length asg))
  ∧ map snd asg = map studentName (accepted (trace s))
  ∧ match database s with
    | None => asg = [] ∧ confirmations_sent (trace s) = []
    | Some (D_mq_receive k) =>
        0 ≤ k < 3 ∧ Z.of_nat (length asg) = k
        ∧ confirmations_sent (trace s) = map confirmation asg
    | Some (D_requeue k msg) =>
        0 ≤ k < 3 ∧ Z.of_nat (length asg) = k
        ∧ confirmations_sent (trace s) = map confirmation asg
        ∧ msg_type msg ≠ 1
    | Some (D_mq_send k msg) =>
        0 ≤ k < 3
        ∧ ∃ asg0 name,
            asg = asg0 ++ [(1001 + k, name)]
            ∧ Z.of_nat (length asg0) = k
            ∧ msg = confirmation (1001 + k, name)
            ∧ confirmations_sent (trace s) = map confirmation asg0
    | Some (D_exited code) =>
        (length asg ≤ 3)%nat
        ∧ (∃ asg0 rest,
             asg = asg0 ++ rest
             ∧ confirmations_sent (trace s) = map confirmation asg0)
        ∧ (code = 0 →
           length asg = 3%nat
           ∧ confirmations_sent (trace s) = map confirmation asg)
    end.

Definition logger_inv (s : system) : Prop :=
  match logger s with
  | None => logged (trace s) = []
  | Some (L_mq_receive k) =>
      0 ≤ k < 3 ∧ Z.of_nat (length (logged (trace s))) = k
  | Some (L_requeue k msg) =>
      0 ≤ k < 3 ∧ Z.of_nat (length (logged (trace s))) = k
      ∧ msg_type msg ≠ 2
  | Some (L_exited code) =>
      (length (logged (trace s)) ≤ 3)%nat
      ∧ (code = 0 → length (logged (trace s)) = 3%nat)
  end.

(** Nothing is on the queue that was not sent, and nothing is consumed
    twice: the records logged and the confirmations still in flight are, as
    a multiset, among the confirmations sent; likewise for submissions. *)
Definition channel_inv (s : system) : Prop :=
  map confirmation (logged (trace s))
    ++ List.filter is_confirmation (in_flight s)
    ⊆+ confirmations_sent (trace s)
  ∧ accepted (trace s) ++ List.filter is_submission (in_flight s)
    ⊆+ submissions_sent (trace s).

Definition tagging_inv (s : system) : Prop :=
  Forall well_tagged (in_flight s ++ pending s)
  ∧ Forall well_tagged (placed (trace s)).

(** Whatever was put on the queue, put-backs included, was first sent by the
    process that produces messages of that type. *)
Definition origin_inv (s : system) : Prop :=
  Forall (λ msg, (msg_type msg = 1 → msg ∈ submissions_sent (trace s))
                 ∧ (msg_type msg = 2 → msg ∈ confirmations_sent (trace s)))
         (placed (trace s)).

(** The queue never holds more messages than its [mq_maxmsg]. *)
Definition capacity_inv (s : system) : Prop :=
  (length (mq s) ≤ maxmsg s)%nat.

Record invariant (s : system) : Prop := mkInvariant {
  inv_main : main_inv s;
  inv_alphabet : alphabet_inv s;
  inv_frontend : frontend_inv s;
  inv_database : database_inv s;
  inv_logger : logger_inv s;
  inv_channel : channel_inv s;
  inv_tagging : tagging_inv s;
  inv_origin : origin_inv s;
  inv_capacity : capacity_inv s
}.

(** ** Elapsed time: [getElapsedSeconds] *)

(** [(int)(time(NULL) - startTime)]: [now] is the value [time] returns;
    [time_t] is taken wide enough for the difference, and the conversion to
    [int] keeps the low 32 bits. *)
Definition getElapsedSeconds (startTime now : Z) : Z :=
  int_wrap (now - startTime).

(** ** Further invariants *)

(** The exit status of a process, once it has terminated. *)
Definition status_of (a : actor) (s : system) : option Z :=
  match a with
  | Main => match parent s with M_exited code => Some code | _ => None end
  | Frontend =>
      match frontend s with Some (F_exited code) => Some code | _ => None end
  | Database =>
      match database s with Some (D_exited code) => Some code | _ => None end
  | Logger =>
      match logger s with Some (L_exited code) => Some code | _ => None end
  end.

(** A queue call that returned -1. *)
Definition failed_call (e : event) : bool :=
  match e with
  | mq_receive None => true
  | mq_send _ _ r => r =? -1
  | _ => false
  end.

(** A queue call that returned -1 and whose value the code tests: every one
    but the put-back. *)
Definition fatal_call (e : event) : bool :=
  match e with
  | mq_send Requeue _ _ => false
  | _ => failed_call e
  end.

(** No queue call has failed so far. *)
Definition failure_free (t : list (actor * event)) : Prop :=
  Forall (λ x, failed_call x.2 = false) t.

Definition known_type (msg : studentMessage) : Prop :=
  msg_type msg = 1 ∨ msg_type msg = 2.

(** Only the two types the program itself produces travel. *)
Definition types_inv (s : system) : Prop :=
  Forall known_type (in_flight s ++ pending s).

(** A child makes no call after a failed call it tests, except to report and
    exit with status 1; it exits with status 0 only with none. *)
Definition fail_fast_inv (s : system) : Prop :=
  ∀ a, a ≠ Main →
    let calls := calls_of a (trace s) in
    match status_of a s with
    | None => Forall (λ e, fatal_call e = false) calls
    | Some code =>
        (code = 0 ∧ Forall (λ e, fatal_call e = false) calls)
        ∨ (code = 1
           ∧ ∃ l e, calls = l ++ [e; perror a; exit 1]
                    ∧ fatal_call e = true
                    ∧ Forall (λ e, fatal_call e = false) l)
    end.

(** Before [mq_open] returns nothing is queued, in a run that starts clean. *)
Definition fresh_inv (s : system) : Prop :=
  match parent s with
  | M_mq_unlink_stale | M_mq_open => mq s = []
  | _ => True
  end.

(** The frontend stops short of the third submission when it fails. *)
Definition frontend_failed_inv (s : system) : Prop :=
  frontend s = Some (F_exited 1) →
  (length (submissions_sent (trace s)) < 3)%nat.

(** The database stops short of the third confirmation when it fails. *)
Definition database_failed_inv (s : system) : Prop :=
  database s = Some (D_exited 1) →
  (length (confirmations_sent (trace s)) < 3)%nat.

(** As long as no queue call fails and the parent has not terminated,
    nothing is lost: what was sent is, as a multiset, what was consumed
    together with what is in flight. *)
Definition lossless_inv (s : system) : Prop :=
  failure_free (trace s) → status_of Main s = None →
  accepted (trace s) ++ List.filter is_submission (in_flight s)
    ≡ₚ submissions_sent (trace s)
  ∧ map confirmation (logged (trace s))
      ++ List.filter is_confirmation (in_flight s)
    ≡ₚ confirmations_sent (trace s).

(** What each process passes to [mq_send]: the frontend its submissions, the
    database new confirmations and put-backs of confirmations it sent
    before, the logger put-backs of submissions the frontend sent. *)
Definition senders_inv (s : system) : Prop :=
  Forall (λ x, x.1.1 = Submit ∧ msg_type x.1.2 = 1 ∧ rollNo x.1.2 = 0)
         (sends_of Frontend (trace s))
  ∧ Forall (λ x, msg_type x.1.2 = 2
                 ∧ (x.1.1 = Confirm
                    ∨ (x.1.1 = Requeue
                       ∧ x.1.2 ∈ confirmations_sent (trace s))))
           (sends_of Database (trace s))
  ∧ Forall (λ x, x.1.1 = Requeue ∧ msg_type x.1.2 = 1
                 ∧ x.1.2 ∈ submissions_sent (trace s))
           (sends_of Logger (trace s)).

(** What is left to do: messages not yet sent, accepted, confirmed or
    logged, and messages waiting for their put-back. *)
Definition remaining (s : system) : nat :=
  ((3 - length (submissions_sent (trace s)))
   + (3 - length (accepted (trace s)))
   + (3 - length (confirmations_sent (trace s)))
   + (3 - length (logged (trace s)))
   + length (held s))%nat.

(** The process is about to receive and the head of the queue is not of
    its type. *)
Definition wrong_head (a : actor) (s : system) : bool :=
  match a, mq s with
  | Database, msg :: _ =>
      match database s with
      | Some (D_mq_receive _) => negb (msg_type msg =? 1)
      | _ => false
      end
  | Logger, msg :: _ =>
      match logger s with
      | Some (L_mq_receive _) => negb (msg_type msg =? 2)
      | _ => false
      end
  | _, _ => false
  end.

(** The three children exist. *)
Definition all_forked (s : system) : Prop :=
  is_Some (frontend s) ∧ is_Some (database s) ∧ is_Some (logger s).

(** Database and logger each take the message meant for the other and put
    it back. *)
Definition requeue_cycle : list (actor * bool) :=
  [(Database, true); (Logger, true); (Database, true); (Logger, true)].

(** The first confirmation is at the head of the queue, the second
    submission behind it; database and logger are about to receive. *)
Definition crossed_schedule : list (actor * bool) :=
  setup ++ [(Frontend, true); (Database, true); (Database, true);
            (Frontend, true)].

Definition crossed : system :=
  Eval vm_compute in state_after crossed_schedule.

(** Every child has failed on its first call. *)
Definition failed_final : system :=
  Eval vm_compute in state_after failing_schedule.

Record further_invariant (s : system) : Prop := mkFurther {
  inv_types : types_inv s;
  inv_fresh : fresh_inv s;
  inv_fail_fast : fail_fast_inv s;
  inv_frontend_failed : frontend_failed_inv s;
  inv_database_failed : database_failed_inv s;
  inv_lossless : lossless_inv s;
  inv_senders : senders_inv s
}.

(** ** The queue the program starts with *)

(** The value of the first [mq_unlink], once [main] has made that call. *)
Definition first_unlink (t : list (actor * event)) : option Z :=
  match calls_of Main t with
  | mq_unlink r :: _ => Some r
  | _ => None
  end.

(** The messages in the queue that [mq_open] returns, at that moment: those
    of the queue left by an earlier run, unless the first [mq_unlink] removed
    it. *)
Definition inherited (env : environment) (t : list (actor * event))
  : list studentMessage :=
  match env with
  | no_queue => []
  | stale_queue msgs _ =>
      match first_unlink t with
      | Some r => if r =? -1 then msgs else []
      | None => msgs
      end
  end.

(** The run starts clean: the queue [mq_open] returns holds no message. *)
Definition clean_start (env : environment) (t : list (actor * event)) : Prop :=
  inherited env t = [].

(** The queue is created by the [mq_open] of this run: no queue existed at
    the start, or the first [mq_unlink] removed it. *)
Definition created_by_open (env : environment) (t : list (actor * event))
  : Prop :=
  env = no_queue ∨ first_unlink t = Some 0.

(** A state at the start of [main] in which the queue holds no message. *)
Definition empty_start (named : bool) (slots : nat) : system :=
  {| linked := named; mq := []; maxmsg := slots; parent := M_mq_unlink_stale;
     frontend := None; database := None; logger := None; trace := [] |}.

(** Where the queue comes from, at each point of [main]. *)
Definition start_inv (env : environment) (s : system) : Prop :=
  match parent s with
  | M_mq_unlink_stale => s = init_system env
  | M_mq_open =>
      mq s = inherited env (trace s)
      ∧ (created_by_open env (trace s) ↔ linked s = false)
  | M_fork_frontend =>
      linked s = true
      ∧ (created_by_open env (trace s) → maxmsg s = mq_maxmsg)
      ∧ mq s = inherited env (trace s)
  | M_fork_database | M_fork_logger | M_wait _ | M_mq_close | M_mq_unlink =>
      linked s = true
      ∧ (created_by_open env (trace s) → maxmsg s = mq_maxmsg)
  | M_exited code => code = 0 → linked s = false
  end.

(** The invariants that hold whatever queue the program starts with. *)
Record general_invariant (env : environment) (s : system) : Prop := mkGeneral {
  gen_main : main_inv s;
  gen_alphabet : alphabet_inv s;
  gen_frontend : frontend_inv s;
  gen_database : database_inv s;
  gen_logger : logger_inv s;
  gen_capacity : capacity_inv s;
  gen_start : start_inv env s;
  gen_fail_fast : fail_fast_inv s;
  gen_frontend_failed : frontend_failed_inv s;
  gen_database_failed : database_failed_inv s
}.

(** ** Runs that start with a queue left by an earlier run *)

(** A record and a message that this run never produces. *)
Definition mallory : studentMessage := confirmation (9999, "Mallory"%string).
Definition zed : studentMessage :=
  {| msg_type := 1; studentName := "Zed"%string; rollNo := 77 |}.

(** The first [mq_unlink] fails, every other call succeeds, and every child
    runs to completion in turn; the database meets a message that is not a
    submission first and puts it back. *)
Definition stale_schedule : list (actor * bool) :=
  setup
  ++ [(Frontend, true); (Frontend, true); (Frontend, true)]
  ++ [(Database, true); (Database, true)]
  ++ [(Database, true); (Database, true); (Database, true);
      (Database, true); (Database, true); (Database, true)]
  ++ [(Logger, true); (Logger, true); (Logger, true)].

(** The logger meets a message that is not a confirmation and puts it
    back. *)
Definition stale_requeue_schedule : list (actor * bool) :=
  setup ++ [(Logger, true); (Logger, true)].

(** * Proofs *)

(** ** Arithmetic and trace lemmas *)

(** No wrap-around in the range the counters live in. *)

Lemma int_add_small a b :
  - 2 ^ 31 ≤ a + b < 2 ^ 31 → int_add a b = a + b.
Proof.
  intros H. unfold int_add, int_wrap.
  rewrite Z.mod_small by lia. lia.
Qed.

Lemma calls_of_app a t1 t2 : calls_of a (t1 ++ t2) = calls_of a t1 ++ calls_of a t2.
Proof. apply omap_app. Qed.

Lemma calls_of_by_actor a b evs :
  calls_of a (by_actor b evs) = if decide (b = a) then evs else [].
Proof.
  unfold calls_of, by_actor.
  destruct (decide (b = a)) as [Hab|Hab].
  - induction evs as [|e evs IH]; [done|]. cbn.
    destruct (decide (b = a)); [|done]. by f_equal.
  - induction evs as [|e evs IH]; [done|]. cbn.
    by destruct (decide (b = a)).
Qed.

(** ** Case analysis of a step *)

(** [step_cases] splits a hypothesis [step a ok s = Some s'] into one goal
    per path through the code of the process that moved, with [s'] replaced
    by the state that path builds. *)
Ltac unfold_code :=
  unfold main_step, frontend_step, database_step, logger_step,
    sys_mq_send, sys_mq_receive, main_resume,
    runFrontendProcess, runDatabaseProcess, runLoggerProcess,
    frontend_after_send, frontend_iter,
    database_after_receive, database_after_requeue, database_after_send,
    database_loop, logger_after_receive, logger_after_requeue, logger_loop,
    ret in *.

Ltac fields :=
  cbn [linked mq maxmsg parent frontend database logger trace fst snd] in *.

Ltac step_cases H :=
  match type of H with
  | step ?a _ ?s = Some _ =>
      destruct s as [lnk q cap pc f d l t]; destruct a; cbn [step] in H;
      unfold_code; fields; repeat case_match; simplify_eq; fields
  end.

(** A step of a child leaves the parent alone, and children neither appear
    nor come back from termination. *)
Lemma worker_step_frame a ok s s' :
  a ≠ Main → step a ok s = Some s' →
  parent s' = parent s
  ∧ calls_of Main (trace s') = calls_of Main (trace s)
  ∧ (exited_children s ≤ exited_children s')%nat
  ∧ (is_Some (frontend s) ↔ is_Some (frontend s'))
  ∧ (is_Some (database s) ↔ is_Some (database s'))
  ∧ (is_Some (logger s) ↔ is_Some (logger s')).
Proof.
  intros Ha Hstep. step_cases Hstep; try done.
  all: rewrite calls_of_app, calls_of_by_actor; simpl; rewrite app_nil_r.
  all: unfold exited_children, frontend_exited, database_exited, logger_exited; fields.
  all: repeat split; try done; try lia; try by eauto.
  all: repeat case_match; simpl; lia.
Qed.

Lemma exited_children_le s : (exited_children s ≤ 3)%nat.
Proof.
  unfold exited_children.
  destruct (frontend_exited s), (database_exited s), (logger_exited s); simpl; lia.
Qed.

(** ** Each invariant is preserved by every step *)

Ltac exited_fields :=
  unfold exited_children, frontend_exited, database_exited, logger_exited in *;
  fields.

Ltac bool_hyps :=
  repeat match goal with
    | H : _ && _ = true |- _ => apply andb_true_iff in H; destruct H
    | H : negb _ = true |- _ => apply negb_true_iff in H
    | H : negb _ = false |- _ => apply negb_false_iff in H
    | H : (_ <? _)%nat = true |- _ => apply Nat.ltb_lt in H
    | H : (_ <? _)%nat = false |- _ => apply Nat.ltb_ge in H
    | H : (_ <? _) = true |- _ => apply Z.ltb_lt in H
    | H : (_ <? _) = false |- _ => apply Z.ltb_ge in H
    | H : (_ =? _) = true |- _ => apply Z.eqb_eq in H
    | H : (_ =? _) = false |- _ => apply Z.eqb_neq in H
    end.

Ltac main_solve Hc :=
  unfold main_inv, no_children in *; fields;
  rewrite ?calls_of_app, ?calls_of_by_actor; simpl;
  rewrite ?app_nil_r, Hc; exited_fields;
  try (right; split; [done|]; eexists _, _; split; [reflexivity|];
       split; [repeat first [apply list_elem_of_here
                            | apply list_elem_of_further]|]);
  try (left; split; [done|]);
  intuition (eauto; try done; try lia).

Lemma main_inv_step a ok s s' :
  step a ok s = Some s' → main_inv s → main_inv s'.
Proof.
  intros Hstep [r0 Hinv]. destruct (decide (a = Main)) as [->|Ha].
  - destruct s as [lnk q cap pc f d l t]. cbn [step] in Hstep. fields.
    unfold main_step in Hstep. fields.
    destruct pc; unfold_code; fields; repeat case_match; simplify_eq; fields.
    all: bool_hyps; try lia.
    all: destruct Hinv as [Hc Hinv].
    all: first [exists r0; main_solve Hc; fail
               | exists 0; main_solve Hc; fail
               | exists (-1); main_solve Hc; fail | idtac].
    all: match goal with
         | H : (_ < exited_children ?s)%nat |- _ =>
             pose proof (exited_children_le s)
         end.
    all: assert (returned = 0 ∨ returned = 1 ∨ returned = 2)%nat
           as [->|[->| ->]] by lia.
    all: try lia.
    all: exists r0; main_solve Hc.
  - destruct (worker_step_frame a ok s s' Ha Hstep)
      as (Hp & Hc & Hex & Hf & Hd & Hl).
    pose proof (exited_children_le s').
    exists r0. unfold no_children in *. rewrite Hp, Hc.
    destruct (parent s); rewrite ?eq_None_not_Some in *;
      try (intuition (eauto; try done; try lia); fail).
    destruct Hinv as [(-> & ? & ?)|(-> & n & e & ? & ? & ? & Hnone)].
    + left. repeat split; [done|lia].
    + right. split; [done|]. exists n, e. split_and!; try done.
      * intros. lia.
      * intros Hle. specialize (Hnone Hle).
        rewrite eq_None_not_Some in *. tauto.
Qed.

Lemma alphabet_inv_step a ok s s' :
  step a ok s = Some s' → alphabet_inv s → alphabet_inv s'.
Proof.
  intros Hstep Hinv. unfold alphabet_inv in *.
  step_cases Hstep.
  all: intros a e Hin; apply elem_of_app in Hin as [Hin|Hin]; [by apply Hinv|].
  all: simpl in Hin; decompose_list_elem_of; simplify_eq; simpl; auto.
Qed.

Lemma frontend_inv_step a ok s s' :
  step a ok s = Some s' → main_inv s → frontend_inv s → frontend_inv s'.
Proof.
  intros Hstep Hmain Hinv.
  destruct (decide (a = Frontend)) as [->|Ha].
  - destruct Hinv as (n & Hsent & Hpc). clear Hmain.
    destruct s as [lnk q cap pc f d l t]. cbn [step] in Hstep.
    unfold frontend_step in Hstep. fields.
    destruct f as [[i msg|c]|]; [|done..].
    destruct Hpc as (-> & Hn & ->).
    assert (n = 0 ∨ n = 1 ∨ n = 2)%nat as [->|[->| ->]] by lia.
    all: destruct ok; unfold sys_mq_send, frontend_after_send in Hstep;
      repeat case_match; simplify_eq.
    all: repeat match goal with
           | H : frontend_iter _ = _ |- _ => vm_compute in H
           | H : (_ =? _) = _ |- _ => vm_compute in H
           end; simplify_eq.
    all: unfold frontend_inv, submissions_sent in *; fields.
    all: rewrite omap_app, Hsent; cbn.
    all: first [exists 0%nat; split_and!; (done || lia)
               |exists 1%nat; split_and!; (done || lia)
               |exists 2%nat; split_and!; (done || lia)
               |exists 3%nat; split_and!; (done || lia)].
  - revert Hmain Hinv. step_cases Hstep; try done.
    all: intros [r0 Hmain] (n & Hsent & Hpc).
    all: unfold frontend_inv, submissions_sent, no_children in *; fields.
    all: rewrite omap_app, Hsent; cbn; rewrite ?app_nil_r.
    all: try (exists n; done).
    all: exists 0%nat; destruct Hmain as (_ & ? & _); simplify_eq.
    all: split_and!; (done || lia).
Qed.

Lemma database_inv_step a ok s s' :
  step a ok s = Some s' → main_inv s → database_inv s → database_inv s'.
Proof.
  intros Hstep Hmain Hinv.
  destruct (decide (a = Database)) as [->|Ha].
  - clear Hmain. destruct Hinv as (Hids & Hnames & Hpc).
    destruct s as [lnk q cap pc f d l t]. cbn [step] in Hstep.
    unfold database_step in Hstep. fields.
    destruct d as [[k|k m|k m|c]|]; [| | |done..].
    all: unfold sys_mq_send, sys_mq_receive, database_after_receive,
           database_after_requeue, database_after_send, database_loop,
           studentCount in Hstep.
    all: rewrite ?int_add_small in Hstep by lia.
    all: repeat case_match; simplify_eq; bool_hyps; try lia.
    all: unfold database_inv, assigned, accepted, confirmations_sent in *.
    all: fields; rewrite !omap_app; cbn; rewrite ?app_nil_r.
    all: repeat match goal with
           | H : msg_type _ = 1 |- _ => rewrite H; cbn
           | H : msg_type ?m ≠ 1 |- _ =>
               apply Z.eqb_neq in H; rewrite H; apply Z.eqb_neq in H; cbn
           end.
    all: rewrite ?app_nil_r.
    all: try (intuition (done || lia); fail).
    + destruct Hpc as (Hk & Hlen & Hsent).
      rewrite !List.map_app, List.length_app, List.seq_app, List.map_app.
      cbn. rewrite <- Hids, <- Hnames, Hlen.
      split; [done|split; [done|split; [lia|]]].
      exists (omap assignment t), (studentName s). by split_and!.
    + destruct Hpc as (Hk & Hlen & Hsent).
      split_and!; [done|done|lia| |intros; lia].
      exists (omap assignment t), []. by rewrite app_nil_r.
    + destruct Hpc as (Hk & asg0 & name & Hasg & Hlen & -> & Hsent).
      split_and!; [done|done| | |intros; lia].
      * rewrite Hasg, List.length_app. cbn. lia.
      * by exists asg0, [(1001 + k, name)].
    + destruct Hpc as (Hk & asg0 & name & Hasg & Hlen & -> & Hsent).
      rewrite Hasg in *. rewrite List.length_app in *. cbn in *.
      split_and!; try done; try lia.
      rewrite Hsent, List.map_app. done.
    + destruct Hpc as (Hk & asg0 & name & Hasg & Hlen & -> & Hsent).
      assert (omap confirmation_sent t ++ [confirmation (1001 + k, name)]
              = map confirmation (omap assignment t)) as Heq
        by (by rewrite Hasg, Hsent, List.map_app).
      split_and!; [done|done| | |].
      * rewrite Hasg, List.length_app. cbn. lia.
      * exists (omap assignment t), []. by rewrite app_nil_r.
      * intros _. split; [|done]. rewrite Hasg, List.length_app. cbn. lia.
  - revert Hmain Hinv. step_cases Hstep; try done.
    all: intros [r0 Hmain] (Hids & Hnames & Hpc).
    all: unfold database_inv, assigned, accepted, confirmations_sent,
           no_children in *; fields.
    all: rewrite !omap_app; cbn; rewrite ?app_nil_r.
    all: try done.
    destruct Hmain as (_ & _ & -> & _). destruct Hpc as [Ha0 Hs0].
    rewrite Ha0 in *. rewrite Hs0. split_and!; (done || lia).
Qed.

Lemma logger_inv_step a ok s s' :
  step a ok s = Some s' → main_inv s → logger_inv s → logger_inv s'.
Proof.
  intros Hstep Hmain Hinv.
  destruct (decide (a = Logger)) as [->|Ha].
  - clear Hmain.
    destruct s as [lnk q cap pc f d l t]. cbn [step] in Hstep.
    unfold logger_step in Hstep. unfold logger_inv in Hinv. fields.
    destruct l as [[k|k m|c]|]; [| |done..].
    all: unfold sys_mq_send, sys_mq_receive, logger_after_receive,
           logger_after_requeue, logger_loop, studentCount in Hstep.
    all: rewrite ?int_add_small in Hstep by lia.
    all: repeat case_match; simplify_eq; bool_hyps; try lia.
    all: unfold logger_inv, logged in *.
    all: fields; rewrite !omap_app; cbn; rewrite ?app_nil_r.
    all: rewrite ?List.length_app; cbn.
    all: try (split_and!; (done || lia || (intros; lia))).
  - revert Hmain Hinv. step_cases Hstep; try done.
    all: intros [r0 Hmain] Hinv.
    all: unfold logger_inv, logged, no_children in *; fields.
    all: rewrite !omap_app; cbn; rewrite ?app_nil_r.
    all: try done.
    destruct Hmain as (_ & _ & _ & ->). rewrite Hinv. split_and!; (done || lia).
Qed.

(** Closes [A' ⊆+ S ++ X] from [H : A ⊆+ S] when [A'] is [A ++ X] up to the
    order of its parts, or smaller. *)
Ltac submseteq_step H :=
  match type of H with
  | ?A ⊆+ ?S =>
      match goal with
      | |- _ ⊆+ S => trans A; [solve_submseteq | exact H]
      | |- _ ⊆+ S ++ ?X =>
          trans (A ++ X); [solve_submseteq | by apply submseteq_skips_r]
      end
  end.

Lemma channel_inv_step a ok s s' :
  step a ok s = Some s' →
  frontend_inv s → database_inv s → logger_inv s →
  channel_inv s → channel_inv s'.
Proof.
  intros Hstep. step_cases Hstep.
  all: intros (n & _ & Hf) (_ & _ & Hd) Hl [Hc Hs].
  all: unfold logger_inv in Hl.
  all: unfold channel_inv, in_flight, held, logged, accepted,
         confirmations_sent, submissions_sent in *; fields.
  all: bool_hyps.
  all: repeat match goal with
         | H : _ ∧ _ |- _ => destruct H
         | H : ∃ _, _ |- _ => destruct H
         end; simplify_eq.
  all: rewrite ?omap_app, ?List.filter_app, ?List.map_app in *.
  all: unfold is_confirmation, is_submission in *.
  all: cbn in *; rewrite ?app_nil_r in *.
  all: try (split; [submseteq_step Hc|submseteq_step Hs]; fail).
  all: match goal with
       | s : studentMessage |- _ =>
           try replace (confirmation (rollNo s, studentName s)) with s
             by (destruct s; cbn in *; by subst);
           destruct (msg_type s =? 2) eqn:?; destruct (msg_type s =? 1) eqn:?
       end.
  all: bool_hyps; try lia.
  all: split; [submseteq_step Hc|submseteq_step Hs].
Qed.

Lemma tagging_inv_step a ok s s' :
  step a ok s = Some s' → database_inv s → tagging_inv s → tagging_inv s'.
Proof.
  intros Hstep. step_cases Hstep.
  all: intros (_ & _ & Hd) [Hq Hp].
  all: unfold tagging_inv, in_flight, held, pending, placed in *; fields.
  all: bool_hyps.
  all: rewrite ?omap_app in *; cbn in *; rewrite ?app_nil_r in *.
  all: repeat first [rewrite Forall_app in * | rewrite Forall_cons in *
                     | rewrite Forall_nil in *].
  all: try (intuition done; fail).
  all: split_and!; try (intuition done; fail).
  all: unfold well_tagged; cbn; rewrite ?int_add_small by lia.
  all: split; intros; lia.
Qed.

Lemma origin_inv_step a ok s s' :
  step a ok s = Some s' →
  frontend_inv s → database_inv s → channel_inv s →
  origin_inv s → origin_inv s'.
Proof.
  intros Hstep. step_cases Hstep.
  all: intros (n & _ & Hf) (_ & _ & Hd) [Hc Hs] Ho.
  all: unfold origin_inv, channel_inv, in_flight, held, placed,
         confirmations_sent, submissions_sent in *; fields.
  all: bool_hyps.
  all: repeat match goal with
         | H : _ ∧ _ |- _ => destruct H
         | H : ∃ _, _ |- _ => destruct H
         end; simplify_eq.
  all: rewrite ?omap_app in *; cbn in *; rewrite ?app_nil_r in *.
  all: try done.
  all: rewrite ?Forall_app, ?Forall_singleton.
  all: repeat split.
  all: try (eapply Forall_impl; [exact Ho|];
            cbn; intros ? [? ?]; split; intros; rewrite ?elem_of_app; auto).
  all: try (intros; apply elem_of_app; right; apply list_elem_of_here).
  all: try (cbn; intros; done).
  all: intros Htag.
  all: first [ eapply elem_of_submseteq; [|exact Hc]
             | eapply elem_of_submseteq; [|exact Hs] ].
  all: rewrite ?List.filter_app; cbn; unfold is_confirmation, is_submission.
  all: apply Z.eqb_eq in Htag; rewrite Htag.
  all: rewrite !elem_of_app; auto using list_elem_of_here.
Qed.

Lemma capacity_inv_step a ok s s' :
  step a ok s = Some s' → capacity_inv s → capacity_inv s'.
Proof.
  intros Hstep. step_cases Hstep.
  all: unfold capacity_inv, mq_maxmsg in *; fields; bool_hyps.
  all: rewrite ?List.length_app; cbn in *; lia.
Qed.

Lemma types_inv_step a ok s s' :
  step a ok s = Some s' → types_inv s → types_inv s'.
Proof.
  intros Hstep. step_cases Hstep.
  all: intros Hq.
  all: unfold types_inv, in_flight, held, pending in *; fields.
  all: bool_hyps.
  all: cbn in *; rewrite ?app_nil_r in *.
  all: repeat first [rewrite Forall_app in * | rewrite Forall_cons in *
                     | rewrite Forall_nil in *].
  all: try (intuition done; fail).
  all: split_and!; try (intuition done; fail).
  all: unfold known_type; cbn; auto.
Qed.

Lemma sends_of_app a t1 t2 : sends_of a (t1 ++ t2) = sends_of a t1 ++ sends_of a t2.
Proof. apply omap_app. Qed.

Lemma failure_free_app t1 t2 :
  failure_free (t1 ++ t2) ↔ failure_free t1 ∧ failure_free t2.
Proof. apply Forall_app. Qed.

Ltac clean_calls Hinv :=
  repeat first [rewrite Forall_app | rewrite Forall_cons | rewrite Forall_nil];
  cbn; split_and!; first [exact Hinv | done].

Lemma fail_fast_inv_step a ok s s' :
  step a ok s = Some s' → main_inv s → fail_fast_inv s → fail_fast_inv s'.
Proof.
  intros Hstep. step_cases Hstep.
  all: intros [r0 Hmain] Hinv b Hb; specialize (Hinv b Hb).
  all: destruct b; [done| | |].
  all: unfold status_of, no_children in *; fields.
  all: rewrite ?calls_of_app, ?calls_of_by_actor.
  all: repeat case_decide; try done; rewrite ?app_nil_r.
  all: try exact Hinv.
  all: try (destruct Hmain as (_ & ? & ? & ?); simplify_eq).
  all: try (clean_calls Hinv; fail).
  all: try (right; split; [done|]; eexists _, _; split; [reflexivity|];
            split; [done|exact Hinv]).
  all: try (left; split; [done|]; clean_calls Hinv; fail).
  all: exact Hinv.
Qed.

Lemma frontend_failed_inv_step a ok s s' :
  step a ok s = Some s' → main_inv s → frontend_inv s →
  frontend_failed_inv s → frontend_failed_inv s'.
Proof.
  intros Hstep. step_cases Hstep.
  all: intros [r0 Hmain] (n & Hsent & Hpc) Hinv Hf.
  all: unfold frontend_failed_inv, no_children, submissions_sent in *; fields.
  all: simplify_eq.
  all: rewrite ?omap_app; cbn; rewrite ?app_nil_r.
  all: try (by apply Hinv).
  all: try (destruct Hmain as (_ & ? & ? & ?); simplify_eq).
  all: destruct Hpc as (-> & Hn & ->); rewrite Hsent, List.length_map.
  all: rewrite length_take; cbn; lia.
Qed.

Ltac perm_step H :=
  match type of H with
  | ?A ≡ₚ ?S =>
      match goal with
      | |- _ ≡ₚ S => trans A; [solve_Permutation | exact H]
      | |- _ ≡ₚ S ++ ?X =>
          trans (A ++ X); [solve_Permutation | by rewrite H]
      end
  end.

Lemma fresh_inv_step a ok s s' :
  step a ok s = Some s' → main_inv s → fresh_inv s → fresh_inv s'.
Proof.
  intros Hstep. step_cases Hstep.
  all: intros [r0 Hmain] Hinv.
  all: unfold fresh_inv, no_children in *; fields; try done.
  all: destruct pc; try done.
  all: destruct Hmain as (_ & ? & ? & ?); simplify_eq.
Qed.

Lemma lossless_inv_step a ok s s' :
  step a ok s = Some s' →
  main_inv s → fresh_inv s → frontend_inv s → database_inv s → logger_inv s →
  lossless_inv s → lossless_inv s'.
Proof.
  intros Hstep. step_cases Hstep.
  all: intros [r0 Hmain] Hfresh (n & _ & Hf) (_ & _ & Hd) Hl Hinv Hfree Halive.
  all: unfold logger_inv in Hl.
  all: unfold lossless_inv, fresh_inv, no_children, status_of in *; fields;
    simplify_eq.
  all: try (destruct Hmain as (_ & ? & ? & ?); simplify_eq).
  all: apply failure_free_app in Hfree as [Hfree Hnew].
  all: first [ specialize (Hinv Hfree eq_refl) as [Hs Hc]
             | specialize (Hinv Hfree Halive) as [Hs Hc] ].
  all: unfold failure_free in Hnew; cbn in Hnew.
  all: repeat match goal with
         | H : Forall _ (_ :: _) |- _ => apply Forall_cons in H as [? H]
         end; try done.
  all: unfold in_flight, held, logged, accepted,
         confirmations_sent, submissions_sent in *; fields.
  all: bool_hyps.
  all: repeat match goal with
         | H : _ ∧ _ |- _ => destruct H
         | H : ∃ _, _ |- _ => destruct H
         end; simplify_eq.
  all: rewrite ?omap_app, ?List.filter_app, ?List.map_app in *.
  all: unfold is_confirmation, is_submission in *.
  all: cbn in *; rewrite ?app_nil_r in *.
  all: try (split; [perm_step Hs|perm_step Hc]; fail).
  all: match goal with
       | s : studentMessage |- _ =>
           try replace (confirmation (rollNo s, studentName s)) with s
             by (destruct s; cbn in *; by subst);
           destruct (msg_type s =? 2) eqn:?; destruct (msg_type s =? 1) eqn:?
       end.
  all: bool_hyps; try lia.
  all: split; [perm_step Hs|perm_step Hc].
Qed.

Lemma sends_of_by_actor_ne a b evs :
  a ≠ b → sends_of a (by_actor b evs) = [].
Proof.
  intros Hne. unfold sends_of, by_actor.
  induction evs as [|e evs IH]; [done|]. cbn.
  destruct e; try done. by case_decide.
Qed.

Lemma senders_inv_step a ok s s' :
  step a ok s = Some s' →
  frontend_inv s → database_inv s → logger_inv s → channel_inv s →
  types_inv s → senders_inv s → senders_inv s'.
Proof.
  intros Hstep. step_cases Hstep.
  all: intros (n & _ & Hf) (_ & _ & Hd) Hl [Hc Hs] Hty (HF & HD & HL).
  all: unfold logger_inv in Hl.
  all: unfold senders_inv, types_inv, channel_inv, in_flight, held, pending,
         confirmations_sent, submissions_sent, sends_of in *; fields.
  all: bool_hyps.
  all: repeat match goal with
         | H : _ ∧ _ |- _ => destruct H
         | H : ∃ _, _ |- _ => destruct H
         end; simplify_eq.
  all: rewrite ?omap_app in *; cbn in *; rewrite ?app_nil_r in *.
  all: repeat case_decide; try done.
  all: rewrite ?app_nil_r in *.
  all: try done.
  all: split_and!; try done.
  all: rewrite ?Forall_app, ?Forall_singleton.
  all: repeat split; try done.
  all: try (eapply Forall_impl; [eassumption|]; cbn;
            intros [[? ?] ?]; cbn; rewrite ?elem_of_app; tauto).
  all: cbn; auto.
  all: assert (known_type msg) as [Ht|Ht]
         by (repeat first [rewrite Forall_app in Hty
                          | rewrite Forall_cons in Hty]; tauto);
       try done.
  all: try right; try (split; [done|]).
  all: first [ eapply elem_of_submseteq; [|exact Hc]
             | eapply elem_of_submseteq; [|exact Hs] ].
  all: rewrite ?List.filter_app; cbn; unfold is_confirmation, is_submission.
  all: apply Z.eqb_eq in Ht; rewrite Ht.
  all: rewrite !elem_of_app; auto using list_elem_of_here.
Qed.

Lemma database_failed_inv_step a ok s s' :
  step a ok s = Some s' → main_inv s → database_inv s →
  database_failed_inv s → database_failed_inv s'.
Proof.
  intros Hstep. step_cases Hstep.
  all: intros [r0 Hmain] (_ & _ & Hd) Hinv Hf.
  all: unfold database_failed_inv, no_children, confirmations_sent in *.
  all: fields; simplify_eq.
  all: rewrite ?omap_app; cbn; rewrite ?app_nil_r.
  all: try (by apply Hinv).
  all: repeat match goal with
         | H : _ ∧ _ |- _ => destruct H
         | H : ∃ _, _ |- _ => destruct H
         end; simplify_eq.
  all: match goal with
       | H : omap confirmation_sent _ = _ |- _ =>
           rewrite H, List.length_map
       end; lia.
Qed.

(** ** The invariants hold in every reachable state *)

Lemma step_trace a ok s s' :
  step a ok s = Some s' → ∃ t, trace s' = trace s ++ t.
Proof. intros Hstep. step_cases Hstep; by eexists. Qed.

Lemma run_trace sched : ∀ s s',
  run sched s = Some s' → ∃ t, trace s' = trace s ++ t.
Proof.
  induction sched as [|[a ok] sched IH]; intros s s' Hrun; cbn in Hrun.
  - simplify_eq. exists []. by rewrite app_nil_r.
  - destruct (step a ok s) as [s1|] eqn:Hstep; [|done].
    destruct (step_trace _ _ _ _ Hstep) as [t1 H1].
    destruct (IH _ _ Hrun) as [t2 H2].
    exists (t1 ++ t2). by rewrite H2, H1, app_assoc.
Qed.

(** The value of the first [mq_unlink] is settled once the call is made. *)
Lemma first_unlink_app t t' :
  is_Some (first_unlink t) → first_unlink (t ++ t') = first_unlink t.
Proof.
  unfold first_unlink. rewrite calls_of_app.
  destruct (calls_of Main t) as [|[]]; cbn; by intros [].
Qed.

Lemma inherited_app env t t' :
  is_Some (first_unlink t) → inherited env (t ++ t') = inherited env t.
Proof.
  intros Ht. unfold inherited. by rewrite first_unlink_app.
Qed.

Lemma created_by_open_app env t t' :
  is_Some (first_unlink t) →
  created_by_open env (t ++ t') ↔ created_by_open env t.
Proof.
  intros Ht. unfold created_by_open. by rewrite first_unlink_app.
Qed.

Lemma main_first_unlink s :
  main_inv s → parent s ≠ M_mq_unlink_stale → is_Some (first_unlink (trace s)).
Proof.
  intros [r0 Hmain] Hpc. unfold first_unlink.
  destruct (parent s) as [| | | | |k| | |code]; [done|..].
  1-4,6-7: destruct Hmain as [-> _]; by eexists.
  - destruct Hmain as [-> _]. by eexists.
  - destruct Hmain as [(_ & -> & _)|(_ & n & e & -> & Hfail & _)];
      [by eexists|].
    unfold main_failures in Hfail.
    decompose_list_elem_of; simplify_eq; by eexists.
Qed.

Lemma created_clean env t : created_by_open env t → clean_start env t.
Proof.
  unfold clean_start, inherited. intros [-> | ->]; [done|]. by destruct env.
Qed.

Lemma start_inv_step env a ok s s' :
  step a ok s = Some s' → main_inv s → start_inv env s → start_inv env s'.
Proof.
  intros Hstep Hmain Hinv.
  assert (parent s = M_mq_unlink_stale ∨ parent s ≠ M_mq_unlink_stale)
    as [Hpc|Hpc] by (destruct (parent s); (by left) || (by right)).
  - unfold start_inv in Hinv. rewrite Hpc in Hinv. subst s.
    destruct env, a, ok; cbn in Hstep; simplify_eq; unfold start_inv; cbn;
      unfold created_by_open, inherited, first_unlink, calls_of; cbn;
      repeat case_decide; try done; cbn.
    all: split; [done|]; split.
    all: try (intros; first [done | by left | by right]).
    all: intros [?|[=]]; done.
  - pose proof (main_first_unlink _ Hmain Hpc) as Hfirst.
    destruct (step_trace _ _ _ _ Hstep) as [t' Ht].
    pose proof (inherited_app env _ t' Hfirst) as Hinh.
    pose proof (created_by_open_app env _ t' Hfirst) as Hcr.
    rewrite <- Ht in Hinh, Hcr. clear Hfirst Ht.
    revert Hmain Hinh Hcr Hpc Hinv. unfold start_inv.
    step_cases Hstep; intros [r0 Hmain] Hinh Hcr Hpc Hinv; fields; try done.
    all: rewrite ?Hinh.
    all: unfold no_children in *; fields.
    all: try (destruct pc; try done).
    all: try (destruct Hmain as (_ & ? & ? & ?); simplify_eq).
    all: pose proof (created_clean env t) as Hcl; unfold clean_start in Hcl.
    all: intuition congruence.
Qed.

Lemma general_invariant_init env : general_invariant env (init_system env).
Proof.
  destruct env; split.
  all: try done.
  all: try (exists 0; by cbn).
  all: try (intros a e Hin; cbn in Hin; by apply not_elem_of_nil in Hin).
  all: try (by exists 0%nat).
  all: try (unfold capacity_inv; cbn; lia).
  all: intros [] Ha; try done; cbn; constructor.
Qed.

Lemma general_invariant_step env a ok s s' :
  step a ok s = Some s' → general_invariant env s → general_invariant env s'.
Proof.
  intros Hstep [].
  split; eauto using main_inv_step, alphabet_inv_step, frontend_inv_step,
    database_inv_step, logger_inv_step, capacity_inv_step, start_inv_step,
    fail_fast_inv_step, frontend_failed_inv_step, database_failed_inv_step.
Qed.

Lemma general_invariant_run env sched : ∀ s s',
  run sched s = Some s' → general_invariant env s → general_invariant env s'.
Proof.
  induction sched as [|[a ok] sched IH]; intros s s' Hrun Hinv; cbn in Hrun.
  - by simplify_eq.
  - destruct (step a ok s) as [s1|] eqn:Hstep; [|done].
    eauto using general_invariant_step.
Qed.

Lemma run_general_invariant {env : environment} sched s :
  run sched (init_system env) = Some s → general_invariant env s.
Proof.
  intros Hrun. eapply general_invariant_run; [done|].
  apply general_invariant_init.
Qed.

(** A run that starts clean is a run from a state whose queue is empty. *)
Lemma invariant_empty_start lnk cap : invariant (empty_start lnk cap).
Proof.
  split.
  - exists 0. by cbn.
  - intros a e Hin. cbn in Hin. by apply not_elem_of_nil in Hin.
  - by exists 0%nat.
  - by cbn.
  - by cbn.
  - split; cbn; constructor.
  - split; cbn; constructor.
  - constructor.
  - unfold capacity_inv. cbn. lia.
Qed.

Lemma further_invariant_empty_start lnk cap :
  further_invariant (empty_start lnk cap).
Proof.
  split.
  - constructor.
  - done.
  - intros [] Ha; try done; cbn; constructor.
  - done.
  - done.
  - intros _ _. by cbn.
  - repeat split; constructor.
Qed.

Lemma invariant_step a ok s s' :
  step a ok s = Some s' → invariant s → invariant s'.
Proof.
  intros Hstep [].
  split; eauto using main_inv_step, alphabet_inv_step, frontend_inv_step,
    database_inv_step, logger_inv_step, channel_inv_step, tagging_inv_step,
    origin_inv_step, capacity_inv_step.
Qed.

Lemma further_invariant_step a ok s s' :
  step a ok s = Some s' →
  invariant s → further_invariant s → further_invariant s'.
Proof.
  intros Hstep [] [].
  split; eauto using types_inv_step, fresh_inv_step, fail_fast_inv_step,
    frontend_failed_inv_step, database_failed_inv_step, lossless_inv_step,
    senders_inv_step.
Qed.

Lemma invariants_run sched : ∀ s s',
  run sched s = Some s' →
  invariant s → further_invariant s → invariant s' ∧ further_invariant s'.
Proof.
  induction sched as [|[a ok] sched IH]; intros s s' Hrun Hinv Hfur;
    cbn in Hrun.
  - by simplify_eq.
  - destruct (step a ok s) as [s1|] eqn:Hstep; [|done].
    eauto using invariant_step, further_invariant_step.
Qed.

Lemma clean_run env sched s :
  run sched (init_system env) = Some s → clean_start env (trace s) →
  ∃ lnk cap, run sched (empty_start lnk cap) = Some s.
Proof.
  intros Hrun Hclean. destruct env as [|msgs room].
  { by exists false, 0%nat. }
  destruct sched as [|[a ok] sched]; cbn in Hrun.
  - simplify_eq. cbn in Hclean. unfold clean_start in Hclean. cbn in Hclean.
    subst msgs. by exists true, (0 + room)%nat.
  - destruct (step a ok _) as [s1|] eqn:Hstep; [|done].
    destruct (run_trace _ _ _ Hrun) as [t Ht].
    destruct a; [|done..]. rewrite Ht in Hclean.
    destruct ok; cbn in Hstep; simplify_eq.
    + exists true, 0%nat. done.
    + unfold clean_start in Hclean.
      rewrite inherited_app in Hclean by (vm_compute; by eexists).
      vm_compute in Hclean. subst msgs. exists true, (0 + room)%nat. done.
Qed.

Lemma run_invariants {env : environment} sched s :
  run sched (init_system env) = Some s → clean_start env (trace s) →
  invariant s ∧ further_invariant s.
Proof.
  intros Hrun Hclean.
  destruct (clean_run _ _ _ Hrun Hclean) as (lnk & cap & Hrun').
  eapply invariants_run; [done|..].
  - apply invariant_empty_start.
  - apply further_invariant_empty_start.
Qed.

Lemma run_invariant {env : environment} sched s :
  run sched (init_system env) = Some s → clean_start env (trace s) →
  invariant s.
Proof. intros Hrun Hclean. by destruct (run_invariants _ _ Hrun Hclean). Qed.

Lemma run_further_invariant {env : environment} sched s :
  run sched (init_system env) = Some s → clean_start env (trace s) →
  further_invariant s.
Proof. intros Hrun Hclean. by destruct (run_invariants _ _ Hrun Hclean). Qed.

(** [run] and [reachable] describe the same states. *)
Lemma run_reachable env sched : ∀ s s',
  reachable env s → run sched s = Some s' → reachable env s'.
Proof.
  induction sched as [|[a ok] sched IH]; intros s s' Hs Hrun; cbn in Hrun.
  - by simplify_eq.
  - destruct (step a ok s) as [s1|] eqn:Hstep; [|done].
    eauto using reachable_step.
Qed.

Lemma reachable_run env s :
  reachable env s → ∃ sched, run sched (init_system env) = Some s.
Proof.
  induction 1 as [|a ok s s' _ [sched IH] Hstep].
  - by exists [].
  - exists (sched ++ [(a, ok)]).
    revert IH. generalize (init_system env).
    induction sched as [|[b o] sched IHs]; intros s0 Hrun; cbn in *.
    + simplify_eq. by rewrite Hstep.
    + destruct (step b o s0); [|done]. by apply IHs.
Qed.

(** ** Consequences of the invariant *)

Lemma ids_lookup (asg : list (Z * string)) (k : nat) (p : Z * string) :
  map fst asg = map (λ j : nat, 1001 + Z.of_nat j) (seq 0 (length asg)) →
  asg !! k = Some p → p.1 = 1001 + Z.of_nat k.
Proof.
  intros Hids Hk.
  assert (map fst asg !! k = Some p.1) as Hfst.
  { change (map fst asg) with (fst <$> asg). by rewrite list_lookup_fmap, Hk. }
  rewrite Hids in Hfst.
  change (map ?f ?l) with (f <$> l) in Hfst.
  rewrite list_lookup_fmap in Hfst.
  apply lookup_lt_Some in Hk.
  rewrite lookup_seq_lt in Hfst by done. cbn in Hfst. by simplify_eq.
Qed.

Lemma ids_sorted (start n : nat) :
  StronglySorted Z.lt (map (λ j : nat, 1001 + Z.of_nat j) (seq start n)).
Proof.
  revert start. induction n as [|n IH]; intros start; cbn; constructor.
  - apply IH.
  - apply List.Forall_forall. intros x Hx.
    apply List.in_map_iff in Hx as (j & <- & Hj).
    apply List.in_seq in Hj. lia.
Qed.

Lemma ids_NoDup (start n : nat) :
  NoDup (map (λ j : nat, 1001 + Z.of_nat j) (seq start n)).
Proof.
  revert start. induction n as [|n IH]; intros start; cbn; constructor.
  - intros Hin. apply list_elem_of_In, List.in_map_iff in Hin as (j & Hj & Hin).
    apply List.in_seq in Hin. lia.
  - apply IH.
Qed.

Lemma confirmation_inj p1 p2 : confirmation p1 = confirmation p2 → p1 = p2.
Proof. destruct p1, p2. unfold confirmation. cbn. congruence. Qed.

Lemma confirmations_NoDup (asg : list (Z * string)) :
  NoDup (map fst asg) → NoDup (map confirmation asg).
Proof.
  induction asg as [|p asg IH]; cbn; intros Hnd; [constructor|].
  apply NoDup_cons in Hnd as [Hp Hnd]. constructor; [|by apply IH].
  intros Hin. apply Hp.
  apply list_elem_of_In, List.in_map_iff in Hin as (p' & Heq & Hin).
  apply confirmation_inj in Heq as ->.
  apply list_elem_of_In, List.in_map. done.
Qed.

(** What the database has sent is always an initial segment of what it has
    assigned. *)
Lemma confirmations_sent_prefix s :
  database_inv s →
  ∃ asg0 rest, assigned (trace s) = asg0 ++ rest
               ∧ confirmations_sent (trace s) = map confirmation asg0.
Proof.
  intros (_ & _ & Hpc). destruct (database s) as [[k|k m|k m|c]|].
  - destruct Hpc as (_ & _ & Hsent).
    exists (assigned (trace s)), []. by rewrite app_nil_r.
  - destruct Hpc as (_ & _ & Hsent & _).
    exists (assigned (trace s)), []. by rewrite app_nil_r.
  - destruct Hpc as (_ & asg0 & name & Hasg & _ & _ & Hsent).
    by exists asg0, [(1001 + k, name)].
  - by destruct Hpc as (_ & Hpre & _).
  - destruct Hpc as [Hasg Hsent]. exists [], []. by rewrite Hasg, Hsent.
Qed.

(** The facts about a run that starts clean and in which the three children
    exit with status 0 that the theorems below share. *)
Lemma successful_run {env : environment} (sched : list (actor * bool))
    (s : system) :
  run sched (init_system env) = Some s →
  clean_start env (trace s) →
  workers_succeeded s →
  submissions_sent (trace s) = map submission students
  ∧ accepted (trace s) ≡ₚ submissions_sent (trace s)
  ∧ length (assigned (trace s)) = 3%nat
  ∧ confirmations_sent (trace s) = map confirmation (assigned (trace s))
  ∧ length (logged (trace s)) = 3%nat
  ∧ map confirmation (logged (trace s)) ≡ₚ confirmations_sent (trace s).
Proof.
  intros Hrun Hclean (Hf & Hd & Hl).
  destruct (run_invariant _ _ Hrun Hclean)
    as [_ _ (n & Hsub & Hfpc) (Hids & Hnames & Hdpc) Hlpc [Hchan Hacc] _ _ _].
  rewrite Hf in Hfpc. rewrite Hd in Hdpc. unfold logger_inv in Hlpc.
  rewrite Hl in Hlpc.
  specialize (Hfpc eq_refl) as ->.
  destruct Hdpc as (_ & _ & Hdpc). destruct (Hdpc eq_refl) as [Hlen Hsent].
  destruct Hlpc as [_ Hlog]. specialize (Hlog eq_refl).
  split_and!; try done.
  - apply submseteq_length_Permutation.
    + etrans; [|exact Hacc]. by apply submseteq_inserts_r.
    + rewrite Hsub. cbn.
      by rewrite <- (List.length_map studentName), <- Hnames,
        List.length_map, Hlen.
  - apply submseteq_length_Permutation.
    + etrans; [|exact Hchan]. apply submseteq_inserts_r. done.
    + by rewrite Hsent, !List.length_map, Hlen, Hlog.
Qed.

(** ** The claims *)

(** C1, evaluated where it fails.  A queue left by an earlier run holds the
    confirmation of Mallory and the first [mq_unlink] fails, so [mq_open]
    returns that queue, message included.  In the run of [stale_schedule]
    followed by [teardown] the three children exit with status 0 and [main]
    returns 0; the frontend sends the three submissions and the database the
    confirmations of Alice, Bob and Charlie; the logger prints Mallory, Alice
    and Bob.  A record that no process sent in this run is logged, and the
    confirmation of Charlie is still on the queue when [main] removes it. *)
Theorem stale_confirmation_is_logged :
  ∃ s s',
    run stale_schedule (init_system (stale_queue [mallory] 9)) = Some s
    ∧ run teardown s = Some s'
    ∧ workers_succeeded s'
    ∧ parent s' = M_exited 0
    ∧ submissions_sent (trace s') = map submission students
    ∧ confirmations_sent (trace s')
      = map confirmation [(1001, "Alice"%string); (1002, "Bob"%string);
                          (1003, "Charlie"%string)]
    ∧ logged (trace s')
      = [(9999, "Mallory"%string); (1001, "Alice"%string);
         (1002, "Bob"%string)]
    ∧ ¬ map confirmation (logged (trace s')) ≡ₚ confirmations_sent (trace s')
    ∧ mq s = [confirmation (1003, "Charlie"%string)]
    ∧ mq s' = [].
Proof.
  eexists _, _. split; [vm_compute; reflexivity|].
  split; [vm_compute; reflexivity|].
  split_and!; try (vm_compute; done).
  intros Hperm. vm_compute in Hperm.
  eapply Permutation_in in Hperm; [|left; reflexivity].
  cbn in Hperm. intuition discriminate.
Qed.

(** C2. Identifiers.  In every reachable state the k-th submission the
    database has accepted (counting from 0) was assigned 1001 + k and is
    printed with its own name; the k-th confirmation sent carries 1001 + k;
    so the identifiers are strictly increasing in the order of assignment and
    pairwise different. *)
Theorem identifiers_sequential {env : environment} (sched : list (actor * bool)) (s : system) :
  run sched (init_system env) = Some s →
  length (assigned (trace s)) = length (accepted (trace s))
  ∧ (∀ (k : nat) (msg : studentMessage),
       accepted (trace s) !! k = Some msg →
       assigned (trace s) !! k = Some (1001 + Z.of_nat k, studentName msg))
  ∧ (∀ (k : nat) (msg : studentMessage),
       confirmations_sent (trace s) !! k = Some msg →
       msg_type msg = 2 ∧ rollNo msg = 1001 + Z.of_nat k)
  ∧ StronglySorted Z.lt (map fst (assigned (trace s)))
  ∧ NoDup (map fst (assigned (trace s))).
Proof.
  intros Hrun.
  destruct (run_general_invariant _ _ Hrun) as [_ _ _ Hdb _ _ _ _ _ _].
  destruct (confirmations_sent_prefix _ Hdb) as (asg0 & rest & Hasg & Hsent).
  destruct Hdb as (Hids & Hnames & _).
  assert (length (assigned (trace s)) = length (accepted (trace s))) as Hlen.
  { by rewrite <- (List.length_map snd), Hnames, List.length_map. }
  split_and!.
  - done.
  - intros k msg Hk.
    destruct (assigned (trace s) !! k) as [[id name]|] eqn:Hak.
    + pose proof (ids_lookup _ _ _ Hids Hak) as Hid. cbn in Hid. subst id.
      assert (map snd (assigned (trace s)) !! k = Some name) as Hsnd.
      { change (map snd ?l) with (snd <$> l).
        by rewrite list_lookup_fmap, Hak. }
      rewrite Hnames in Hsnd. change (map ?f ?l) with (f <$> l) in Hsnd.
      rewrite list_lookup_fmap, Hk in Hsnd. cbn in Hsnd. by simplify_eq.
    + apply lookup_ge_None in Hak. apply lookup_lt_Some in Hk. lia.
  - intros k msg Hk. rewrite Hsent in Hk.
    change (map ?f ?l) with (f <$> l) in Hk.
    rewrite list_lookup_fmap in Hk.
    destruct (asg0 !! k) as [p|] eqn:Hp; [|done]. cbn in Hk. simplify_eq.
    split; [done|]. cbn.
    apply (ids_lookup _ _ _ Hids). rewrite Hasg.
    by apply lookup_app_l_Some.
  - rewrite Hids. apply ids_sorted.
  - rewrite Hids. apply ids_NoDup.
Qed.


(** C6. Requeue.  From a reachable state in which a process is about to
    receive and the head [msg] of the queue is not of its type, the next two
    steps of that process are: receive [msg], then send the same [msg]; after
    them [msg] is at the tail of the queue, the process is about to receive
    again with the same count, and nothing else has changed (no line
    printed, no other process touched, the queue's attributes as they
    were). *)
Theorem requeue_frame {env : environment} (sched : list (actor * bool)) (s : system)
    (msg : studentMessage) (q : list studentMessage) :
  run sched (init_system env) = Some s →
  mq s = msg :: q →
  (∀ k, database s = Some (D_mq_receive k) → msg_type msg ≠ 1 →
     run [(Database, true); (Database, true)] s
     = Some {| linked := linked s; mq := q ++ [msg]; maxmsg := maxmsg s;
               parent := parent s; frontend := frontend s;
               database := Some (D_mq_receive k); logger := logger s;
               trace := trace s ++ [(Database, mq_receive (Some msg));
                                    (Database, mq_send Requeue msg 0)] |})
  ∧ (∀ k, logger s = Some (L_mq_receive k) → msg_type msg ≠ 2 →
       run [(Logger, true); (Logger, true)] s
       = Some {| linked := linked s; mq := q ++ [msg]; maxmsg := maxmsg s;
                 parent := parent s; frontend := frontend s;
                 database := database s; logger := Some (L_mq_receive k);
                 trace := trace s ++ [(Logger, mq_receive (Some msg));
                                      (Logger, mq_send Requeue msg 0)] |}).
Proof.
  intros Hrun Hq.
  destruct (run_general_invariant _ _ Hrun)
    as [_ _ _ (_ & _ & Hd) Hl Hcap _ _ _ _].
  unfold logger_inv in Hl. unfold capacity_inv in Hcap.
  destruct s as [lnk q0 cap pc f d l t]. cbn in *. subst q0. cbn in Hcap.
  destruct cap as [|slots]; [lia|].
  assert ((length q <=? slots)%nat = true) as Hfree
    by (apply Nat.leb_le; lia).
  split; intros k -> Htag; apply Z.eqb_neq in Htag.
  - destruct Hd as (Hk & _).
    unfold database_step, database_after_receive, database_after_requeue,
      database_loop, sys_mq_send. cbn. rewrite Htag. cbn. rewrite Hfree.
    assert ((k <? studentCount) = true) as ->
      by (apply Z.ltb_lt; unfold studentCount; lia).
    cbn. by rewrite <- app_assoc.
  - destruct Hl as (Hk & _).
    unfold logger_step, logger_after_receive, logger_after_requeue,
      logger_loop, sys_mq_send. cbn. rewrite Htag. cbn. rewrite Hfree.
    assert ((k <? studentCount) = true) as ->
      by (apply Z.ltb_lt; unfold studentCount; lia).
    cbn. by rewrite <- app_assoc.
Qed.

(** C7, evaluated where it fails.  A queue left by an earlier run holds a
    message of type 1 with id 77 and the first [mq_unlink] fails.  After the
    three forks the logger receives that message and, since its type is not
    2, puts it back: a message of type 1 whose id is not 0 is placed on the
    queue in this run. *)
Theorem stale_message_is_put_back :
  ∃ s, run stale_requeue_schedule (init_system (stale_queue [zed] 9)) = Some s
    ∧ msg_type zed = 1 ∧ rollNo zed = 77
    ∧ sends_of Logger (trace s) = [(Requeue, zed, 0)]
    ∧ placed (trace s) = [zed]
    ∧ mq s = [zed]
    ∧ ¬ Forall well_tagged (placed (trace s)).
Proof.
  eexists. split; [vm_compute; reflexivity|].
  split_and!; try (vm_compute; done).
  intros Hall. vm_compute in Hall.
  apply Forall_cons in Hall as [[Hzero _] _]. specialize (Hzero eq_refl).
  discriminate.
Qed.

Lemma exited_children_3 s :
  exited_children s = 3%nat ↔ ∃ cf cd cl, workers_exited s cf cd cl.
Proof.
  unfold exited_children, frontend_exited, database_exited, logger_exited,
    workers_exited.
  split.
  - destruct (frontend s) as [[]|], (database s) as [[]|],
      (logger s) as [[]|]; cbn; intros; try lia. by eexists _, _, _.
  - intros (cf & cd & cl & -> & -> & ->). done.
Qed.

(** C4, evaluated where it fails.  The value of the put-back [mq_send] is
    not looked at: with -1 the database (and the logger) simply go back to
    [mq_receive].  In the run of [lost_requeue_schedule] the database
    dequeues its own confirmation 1001, the put-back fails, and the database
    still processes the two remaining submissions and exits with status 0;
    confirmation 1001 is on the queue no more and was
    never logged. *)
Theorem requeue_failure_not_fatal :
  database_after_requeue 0 (-1) = (D_mq_receive 0, [])
  ∧ logger_after_requeue 0 (-1) = (L_mq_receive 0, [])
  ∧ ∃ s, run lost_requeue_schedule (init_system no_queue) = Some s
      ∧ sends_of Database (trace s)
        = [(Confirm, confirmation (1001, "Alice"%string), 0);
           (Requeue, confirmation (1001, "Alice"%string), (-1));
           (Confirm, confirmation (1002, "Bob"%string), 0);
           (Confirm, confirmation (1003, "Charlie"%string), 0)]
      ∧ database s = Some (D_exited 0)
      ∧ mq s = [confirmation (1002, "Bob"%string);
                confirmation (1003, "Charlie"%string)]
      ∧ logged (trace s) = [].
Proof.
  split; [done|]. split; [done|].
  eexists. split; [vm_compute; reflexivity|].
  split_and!; vm_compute; reflexivity.
Qed.

(** The calls whose value is looked at are fatal: status 1, at once.  These
    are the frontend's send, the database's receive and confirmation send,
    and the logger's receive. *)
Lemma checked_calls_fatal (k : Z) :
  (frontend_after_send k (-1)).1 = F_exited 1
  ∧ (database_after_receive k None).1 = D_exited 1
  ∧ (database_after_send k (-1)).1 = D_exited 1
  ∧ (logger_after_receive k None).1 = L_exited 1.
Proof. done. Qed.

(** C5, as stated, fails: in the run of [failing_schedule] every child
    fails on its first call and exits with status 1, nothing is logged, and
    [main] still returns 0. *)
Lemma exit_status_ignores_workers :
  ∃ s, run failing_schedule (init_system no_queue) = Some s
    ∧ workers_exited s 1 1 1
    ∧ logged (trace s) = []
    ∧ parent s = M_exited 0.
Proof. eexists. split; [vm_compute; reflexivity|]. by vm_compute. Qed.

(** C5, amended.  When [main] has terminated, its status is 0 or 1; it is 0
    exactly when [main] made all its calls with success (the value of the
    first [mq_unlink] apart) and returned, and then the three children have
    terminated, with whatever status; it is 1 exactly when one of [mq_open],
    [fork], [mq_close] or the last [mq_unlink] failed, which was then
    [main]'s last call. *)
Theorem exit_status_of_main {env : environment} (sched : list (actor * bool)) (s : system)
    (code : Z) :
  run sched (init_system env) = Some s →
  parent s = M_exited code →
  (code = 0 ∨ code = 1)
  ∧ (code = 0 ↔
     ∃ r0, calls_of Main (trace s) = success_calls r0 ++ [exit 0])
  ∧ (code = 0 → ∃ cf cd cl, workers_exited s cf cd cl)
  ∧ (code = 1 ↔
     ∃ r0 n e, (n, e) ∈ main_failures
       ∧ calls_of Main (trace s)
         = take n (success_calls r0) ++ [e; perror Main; exit 1]).
Proof.
  intros Hrun Hpc.
  destruct (run_general_invariant _ _ Hrun)
    as [[r0 Hmain] _ _ _ _ _ _ _ _ _].
  rewrite Hpc in Hmain. cbn in Hmain.
  destruct Hmain as [(-> & Hcalls & Hex)|(-> & n & e & Hcalls & Hfail & _)].
  - split_and!.
    + by left.
    + split; [intros _; by exists r0|done].
    + intros _. by apply exited_children_3.
    + split; [done|]. intros (r1 & n & e & _ & Hc). rewrite Hcalls in Hc.
      apply (f_equal last) in Hc. rewrite !last_app in Hc. done.
  - split_and!.
    + by right.
    + split; [done|]. intros (r1 & Hc). rewrite Hcalls in Hc.
      apply (f_equal last) in Hc. rewrite !last_app in Hc. done.
    + done.
    + split; [intros _; by exists r0, n, e|done].
Qed.

Lemma record_of_confirmation p : record_of (confirmation p) = p.
Proof. by destruct p. Qed.

Lemma map_record_of_confirmation (l : list (Z * string)) :
  map record_of (map confirmation l) = l.
Proof.
  induction l as [|p l IH]; cbn; [done|].
  by rewrite record_of_confirmation, IH.
Qed.

(** C8, as stated, fails on the order: in the run of [overtaking_schedule]
    the three children exit with status 0, [main] returns 0, the database
    assigns 1001, 1002, 1003 in this order, and the logger prints 1002 before
    1001. *)
Lemma logger_order_can_differ :
  ∃ s, run overtaking_schedule (init_system no_queue) = Some s
    ∧ workers_succeeded s
    ∧ parent s = M_exited 0
    ∧ assigned (trace s)
      = [(1001, "Alice"%string); (1002, "Bob"%string);
         (1003, "Charlie"%string)]
    ∧ logged (trace s)
      = [(1002, "Bob"%string); (1001, "Alice"%string);
         (1003, "Charlie"%string)]
    ∧ logged (trace s) ≠ assigned (trace s).
Proof.
  eexists. split; [vm_compute; reflexivity|].
  split_and!; by vm_compute.
Qed.

(** C8, amended.  In every run that starts clean and in which the three
    children exit with status 0, the database has assigned 1001, 1002, 1003,
    in this order, to the three submissions it accepted, each printed with
    the name of its submission; the accepted names are Alice, Bob and Charlie
    in some order; the logger has printed exactly these three (id, name)
    records, each once, in some order.  If [main] has terminated as well, its
    status is 0 unless [mq_close] or the last [mq_unlink] failed. *)
Theorem configured_run {env : environment} (sched : list (actor * bool))
    (s : system) :
  run sched (init_system env) = Some s →
  clean_start env (trace s) →
  workers_succeeded s →
  map fst (assigned (trace s)) = [1001; 1002; 1003]
  ∧ map snd (assigned (trace s)) = map studentName (accepted (trace s))
  ∧ map studentName (accepted (trace s)) ≡ₚ students
  ∧ length (logged (trace s)) = 3%nat
  ∧ logged (trace s) ≡ₚ assigned (trace s)
  ∧ (∀ code, parent s = M_exited code →
       code = 0
       ∨ ∃ r0,
           calls_of Main (trace s)
           = take 8 (success_calls r0) ++ [mq_close (-1); perror Main; exit 1]
           ∨ calls_of Main (trace s)
             = take 9 (success_calls r0)
               ++ [mq_unlink (-1); perror Main; exit 1]).
Proof.
  intros Hrun Hclean Hok.
  destruct (successful_run _ _ Hrun Hclean Hok)
    as (Hsub & Hacc & Hlen & Hsent & Hlog & Hperm).
  destruct Hok as (Hf & Hd & Hl).
  destruct (run_general_invariant _ _ Hrun)
    as [[r0 Hmain] _ _ (Hids & Hnames & _) _ _ _ _ _ _].
  split_and!.
  - by rewrite Hids, Hlen.
  - done.
  - change (map studentName ?l) with (studentName <$> l).
    rewrite Hacc, Hsub. done.
  - done.
  - rewrite Hsent in Hperm.
    apply (Permutation_map record_of) in Hperm.
    by rewrite !map_record_of_confirmation in Hperm.
  - intros code Hpc. rewrite Hpc in Hmain. cbn in Hmain.
    destruct Hmain as [(-> & _)|(-> & n & e & Hcalls & Hfail & _ & Hnone)];
      [by left|right].
    exists r0. unfold main_failures in Hfail.
    decompose_list_elem_of; simplify_eq;
      try (rewrite Hnone in Hl by lia; discriminate); auto.
Qed.

(** C9, evaluated where it fails.  A queue left by an earlier run holds one
    message and has [mq_maxmsg] = 1.  When the first [mq_unlink] fails,
    [main] goes on and [mq_open] returns that queue: it holds the old message
    and its capacity is 1, not the [mq_maxmsg] = 10 that [main] asks for; after
    the three forks the queue is full and the frontend's first [mq_send]
    blocks.  Only when the first [mq_unlink] succeeds does [mq_open] create
    an empty queue of capacity 10. *)
Theorem stale_queue_is_reopened :
  (∃ s, run [(Main, false); (Main, true)]
            (init_system (stale_queue [mallory] 0)) = Some s
     ∧ calls_of Main (trace s) = [mq_unlink (-1); mq_open 3]
     ∧ parent s = M_fork_frontend
     ∧ mq s = [mallory]
     ∧ maxmsg s = 1%nat
     ∧ maxmsg s ≠ mq_maxmsg)
  ∧ (∃ s, run setup (init_system (stale_queue [mallory] 0)) = Some s
       ∧ frontend s = Some (F_mq_send 0 (submission "Alice"%string))
       ∧ step Frontend true s = None)
  ∧ (∃ s, run [(Main, true); (Main, true)]
              (init_system (stale_queue [mallory] 0)) = Some s
       ∧ calls_of Main (trace s) = [mq_unlink 0; mq_open 3]
       ∧ mq s = []
       ∧ maxmsg s = mq_maxmsg).
Proof.
  split_and!; (eexists; split; [vm_compute; reflexivity|]);
    split_and!; by vm_compute.
Qed.

(** C10. Teardown failures.  In a run in which the three children have
    exited with status 0 and the three records are logged, if [mq_close]
    fails, or [mq_close] succeeds and the last [mq_unlink] fails, [main]
    exits with status 1.  The value of the first [mq_unlink] makes no
    difference: whatever the program starts with, [main] goes on to
    [mq_open] when that call fails, and when it succeeds (which needs a queue
    to remove); the run of [nominal_schedule], in which that call fails, ends
    with status 0. *)
Theorem teardown_failure_fails_run {env : environment}
    (sched : list (actor * bool)) (s : system) :
  run sched (init_system env) = Some s →
  workers_succeeded s →
  length (logged (trace s)) = 3%nat
  ∧ (parent s = M_mq_close →
     ∃ s', step Main false s = Some s' ∧ parent s' = M_exited 1
       ∧ workers_succeeded s' ∧ logged (trace s') = logged (trace s))
  ∧ (parent s = M_mq_close →
     ∃ s1 s', step Main true s = Some s1 ∧ step Main false s1 = Some s'
       ∧ parent s' = M_exited 1
       ∧ workers_succeeded s' ∧ logged (trace s') = logged (trace s))
  ∧ (∀ start ok, (ok = true → start ≠ no_queue) →
       ∃ s1, step Main ok (init_system start) = Some s1
         ∧ parent s1 = M_mq_open
         ∧ calls_of Main (trace s1) = [mq_unlink (ret ok 0)])
  ∧ (∃ s0, run nominal_schedule (init_system no_queue) = Some s0
       ∧ calls_of Main (trace s0) = success_calls (-1) ++ [exit 0]
       ∧ parent s0 = M_exited 0).
Proof.
  intros Hrun Hok.
  destruct (run_general_invariant _ _ Hrun) as [_ _ _ _ Hlog _ _ _ _ _].
  unfold logger_inv in Hlog.
  destruct s as [lnk q cap pc f d l t]. unfold workers_succeeded in *.
  cbn in *. destruct Hok as (-> & -> & ->). destruct Hlog as [_ Hlog].
  specialize (Hlog eq_refl).
  split_and!.
  - done.
  - intros ->. eexists. split; [reflexivity|]. cbn.
    split_and!; try done. unfold logged. rewrite omap_app. cbn.
    by rewrite app_nil_r.
  - intros ->. eexists _, _. split; [reflexivity|]. split; [reflexivity|]. cbn.
    split_and!; try done. unfold logged. rewrite !omap_app. cbn.
    by rewrite !app_nil_r.
  - intros [|] [|] Hq; try (by destruct Hq);
      eexists; (split; [reflexivity|]); done.
  - eexists. split; [vm_compute; reflexivity|]. by vm_compute.
Qed.

(** The two teardown failures, run from the start. *)
Example teardown_failures_evaluated :
  (∃ s, run close_fails_schedule (init_system no_queue) = Some s
     ∧ workers_succeeded s ∧ length (logged (trace s)) = 3%nat
     ∧ parent s = M_exited 1)
  ∧ (∃ s, run unlink_fails_schedule (init_system no_queue) = Some s
       ∧ workers_succeeded s ∧ length (logged (trace s)) = 3%nat
       ∧ parent s = M_exited 1).
Proof.
  split; (eexists; split; [vm_compute; reflexivity|]); by vm_compute.
Qed.

(** ** The hypotheses of the claims are met by concrete runs *)

Lemma identifiers_sequential_witness :
  run nominal_schedule (init_system no_queue) = Some nominal_final
  ∧ StronglySorted Z.lt (map fst (assigned (trace nominal_final)))
  ∧ NoDup (map fst (assigned (trace nominal_final))).
Proof.
  assert (run nominal_schedule (init_system no_queue) = Some nominal_final) as Hrun
    by (vm_compute; reflexivity).
  split; [exact Hrun|].
  destruct (identifiers_sequential nominal_schedule nominal_final Hrun)
    as (_ & _ & _ & Hsorted & Hnodup).
  exact (conj Hsorted Hnodup).
Defined.


Lemma requeue_frame_witness :
  run (setup ++ [(Frontend, true); (Database, true); (Database, true)])
      (init_system no_queue) = Some first_confirmation_queued
  ∧ mq first_confirmation_queued = [confirmation (1001, "Alice"%string)]
  ∧ database first_confirmation_queued = Some (D_mq_receive 1)
  ∧ (∃ s', run [(Database, true); (Database, true)] first_confirmation_queued
           = Some s'
       ∧ mq s' = [confirmation (1001, "Alice"%string)]
       ∧ database s' = Some (D_mq_receive 1)
       ∧ assigned (trace s') = assigned (trace first_confirmation_queued)).
Proof.
  assert (run (setup ++ [(Frontend, true); (Database, true); (Database, true)])
              (init_system no_queue) = Some first_confirmation_queued) as Hrun
    by (vm_compute; reflexivity).
  assert (mq first_confirmation_queued
          = [confirmation (1001, "Alice"%string)]) as Hq by reflexivity.
  split; [exact Hrun|]. split; [exact Hq|]. split; [reflexivity|].
  destruct (requeue_frame _ first_confirmation_queued
              (confirmation (1001, "Alice"%string)) [] Hrun Hq) as [Hd _].
  assert (msg_type (confirmation (1001, "Alice"%string)) ≠ 1) as Htag
    by (vm_compute; discriminate).
  eexists. split; [exact (Hd 1 eq_refl Htag)|].
  split; [reflexivity|]. split; reflexivity.
Defined.

Lemma exit_status_of_main_witness :
  run nominal_schedule (init_system no_queue) = Some nominal_final
  ∧ parent nominal_final = M_exited 0
  ∧ ∃ cf cd cl, workers_exited nominal_final cf cd cl.
Proof.
  assert (run nominal_schedule (init_system no_queue) = Some nominal_final) as Hrun
    by (vm_compute; reflexivity).
  assert (parent nominal_final = M_exited 0) as Hpc by reflexivity.
  split; [exact Hrun|]. split; [exact Hpc|].
  destruct (exit_status_of_main nominal_schedule nominal_final 0 Hrun Hpc)
    as (_ & _ & Hex & _).
  exact (Hex eq_refl).
Defined.

Lemma configured_run_witness :
  run nominal_schedule (init_system no_queue) = Some nominal_final
  ∧ clean_start no_queue (trace nominal_final)
  ∧ workers_succeeded nominal_final
  ∧ map fst (assigned (trace nominal_final)) = [1001; 1002; 1003]
  ∧ logged (trace nominal_final) ≡ₚ assigned (trace nominal_final).
Proof.
  assert (run nominal_schedule (init_system no_queue) = Some nominal_final) as Hrun
    by (vm_compute; reflexivity).
  assert (clean_start no_queue (trace nominal_final)) as Hclean
    by reflexivity.
  assert (workers_succeeded nominal_final) as Hok
    by (vm_compute; repeat split; reflexivity).
  split; [exact Hrun|]. split; [exact Hclean|]. split; [exact Hok|].
  destruct (configured_run nominal_schedule nominal_final Hrun Hclean Hok)
    as (Hids & _ & _ & _ & Hperm & _).
  exact (conj Hids Hperm).
Defined.

Lemma teardown_failure_fails_run_witness :
  run pipeline_done_schedule (init_system no_queue) = Some pipeline_done
  ∧ workers_succeeded pipeline_done
  ∧ parent pipeline_done = M_mq_close
  ∧ ∃ s', step Main false pipeline_done = Some s' ∧ parent s' = M_exited 1
       ∧ workers_succeeded s'.
Proof.
  assert (run pipeline_done_schedule (init_system no_queue) = Some pipeline_done)
    as Hrun by (vm_compute; reflexivity).
  assert (workers_succeeded pipeline_done) as Hok
    by (vm_compute; repeat split; reflexivity).
  split; [exact Hrun|]. split; [exact Hok|]. split; [reflexivity|].
  destruct (teardown_failure_fails_run pipeline_done_schedule pipeline_done
              Hrun Hok) as (_ & Hclose & _).
  destruct (Hclose eq_refl) as (s' & Hstep & Hpc & Hw & _).
  exists s'. exact (conj Hstep (conj Hpc Hw)).
Defined.

(** * Further properties *)

(** ** Bounds, fail-fast and provenance *)

Lemma known_type_split (l : list studentMessage) :
  Forall known_type l →
  length l
  = (length (List.filter is_submission l)
     + length (List.filter is_confirmation l))%nat.
Proof.
  induction 1 as [|msg l [Ht|Ht] _ IH]; [done|..]; cbn [List.filter];
    unfold is_submission, is_confirmation in *; rewrite Ht; cbn [Z.eqb Pos.eqb];
    cbn [length]; rewrite IH; lia.
Qed.

Lemma submissions_sent_le s :
  frontend_inv s → (length (submissions_sent (trace s)) ≤ 3)%nat.
Proof.
  intros (n & -> & _). rewrite List.length_map, length_take. cbn. lia.
Qed.

Lemma assigned_le s :
  database_inv s → (length (assigned (trace s)) ≤ 3)%nat.
Proof.
  intros (_ & _ & Hpc). destruct (database s) as [[k|k m|k m|c]|].
  - lia.
  - lia.
  - destruct Hpc as (? & asg0 & name & -> & ? & _).
    rewrite List.length_app. cbn. lia.
  - lia.
  - destruct Hpc as [-> _]. cbn. lia.
Qed.

Lemma confirmations_sent_le_accepted s :
  database_inv s →
  (length (confirmations_sent (trace s)) ≤ length (accepted (trace s)))%nat.
Proof.
  intros Hdb.
  destruct (confirmations_sent_prefix _ Hdb) as (asg0 & rest & Hasg & ->).
  destruct Hdb as (_ & Hnames & _).
  apply (f_equal (@length _)) in Hnames. rewrite !List.length_map in Hnames.
  rewrite <- Hnames, Hasg, List.length_map, List.length_app. lia.
Qed.

(** At most three messages exist at any time in a run that starts clean. *)
Lemma in_flight_bound s :
  invariant s → further_invariant s →
  (length (in_flight s) + length (logged (trace s)) ≤ 3)%nat.
Proof.
  intros [_ _ Hf Hd _ [Hc Hs] _ _ _] [Hty _ _ _ _ _ _].
  unfold types_inv in Hty. apply Forall_app in Hty as [Hty _].
  rewrite (known_type_split _ Hty).
  apply submseteq_length in Hc, Hs.
  rewrite List.length_app in Hc, Hs. rewrite List.length_map in Hc.
  pose proof (submissions_sent_le _ Hf).
  pose proof (confirmations_sent_le_accepted _ Hd).
  lia.
Qed.

Lemma send_never_blocks s (slots : nat) msg :
  invariant s → further_invariant s → (3 < slots)%nat →
  sys_mq_send slots true msg (mq s) = Some (mq s ++ [msg], 0).
Proof.
  intros Hinv Hfur Hslots. pose proof (in_flight_bound _ Hinv Hfur) as Hb.
  unfold in_flight in Hb. rewrite List.length_app in Hb.
  unfold sys_mq_send.
  assert ((length (mq s) <? slots)%nat = true) as ->; [|done].
  apply Nat.ltb_lt. lia.
Qed.

(** X1. The queue never fills.  In every state of a run that starts clean,
    the messages on the queue, the messages held for a put-back and the
    records logged are together at most three, and every message on the
    queue has type 1 or 2; so in a queue with more than three slots, as the
    one of [mq_maxmsg] = 10 slots that [mq_open] creates, [mq_send] finds a
    free slot and does not block. *)
Theorem queue_never_full {env : environment} (sched : list (actor * bool))
    (s : system) :
  run sched (init_system env) = Some s →
  clean_start env (trace s) →
  (length (mq s) + length (held s) + length (logged (trace s)) ≤ 3)%nat
  ∧ Forall known_type (mq s)
  ∧ (∀ slots msg, (3 < slots)%nat →
       sys_mq_send slots true msg (mq s) = Some (mq s ++ [msg], 0))
  ∧ (∀ msg, sys_mq_send mq_maxmsg true msg (mq s) = Some (mq s ++ [msg], 0)).
Proof.
  intros Hrun Hclean.
  destruct (run_invariants _ _ Hrun Hclean) as [Hinv Hfur].
  pose proof (in_flight_bound _ Hinv Hfur) as Hb.
  unfold in_flight in Hb. rewrite List.length_app in Hb.
  split_and!.
  - lia.
  - destruct Hfur as [Hty _ _ _ _ _ _]. unfold types_inv, in_flight in Hty.
    rewrite !Forall_app in Hty. tauto.
  - intros slots msg Hslots. by apply send_never_blocks.
  - intros msg. apply send_never_blocks; [done..|]. unfold mq_maxmsg. lia.
Qed.

Lemma submseteq_NoDup_l {A} (l k : list A) : l ⊆+ k → NoDup k → NoDup l.
Proof.
  intros Hsub Hk. apply submseteq_Permutation in Hsub as [k' Hperm].
  rewrite Hperm in Hk. by apply NoDup_app in Hk as [? _].
Qed.

Lemma logged_submseteq_assigned s :
  invariant s → logged (trace s) ⊆+ assigned (trace s).
Proof.
  intros [_ _ _ Hd _ [Hc _] _ _ _].
  destruct (confirmations_sent_prefix _ Hd) as (asg0 & rest & Hasg & Hsent).
  assert (map confirmation (logged (trace s)) ⊆+ map confirmation asg0) as Hsub.
  { rewrite <- Hsent. etrans; [|exact Hc]. by apply submseteq_inserts_r. }
  apply (fmap_submseteq record_of) in Hsub.
  change (record_of <$> ?l) with (map record_of l) in Hsub.
  rewrite !map_record_of_confirmation in Hsub.
  rewrite Hasg. by apply submseteq_inserts_r.
Qed.

(** X2. Nothing is logged that was not assigned.  In every state of a run
    that starts clean, failures included, the records the logger has printed
    are, as a multiset, among the assignments the database has printed;
    their ids are pairwise different and lie between 1001 and 1003; and the
    logger has printed no more records than the database has assigned, which
    is at most three. *)
Theorem logged_were_assigned {env : environment} (sched : list (actor * bool))
    (s : system) :
  run sched (init_system env) = Some s →
  clean_start env (trace s) →
  logged (trace s) ⊆+ assigned (trace s)
  ∧ NoDup (map fst (logged (trace s)))
  ∧ (length (logged (trace s)) ≤ length (assigned (trace s)) ≤ 3)%nat
  ∧ Forall (λ p, 1001 ≤ p.1 ≤ 1003) (logged (trace s)).
Proof.
  intros Hrun Hclean. pose proof (run_invariant _ _ Hrun Hclean) as Hinv.
  pose proof (logged_submseteq_assigned _ Hinv) as Hsub.
  destruct Hinv as [_ _ _ Hd _ _ _ _ _].
  pose proof (assigned_le _ Hd) as Hle. destruct Hd as (Hids & _).
  split_and!.
  - done.
  - apply (submseteq_NoDup_l _ (map fst (assigned (trace s)))).
    + change (map fst ?l) with (fst <$> l). by apply fmap_submseteq.
    + rewrite Hids. apply ids_NoDup.
  - by apply submseteq_length.
  - done.
  - apply Forall_forall. intros p Hp.
    eapply elem_of_submseteq in Hp; [|exact Hsub].
    apply list_elem_of_lookup in Hp as [i Hi].
    pose proof (ids_lookup _ _ _ Hids Hi) as ->.
    apply lookup_lt_Some in Hi. lia.
Qed.

Lemma submissions_NoDup (n : nat) :
  NoDup (map submission (take n students)).
Proof.
  change (map submission ?l) with (submission <$> l).
  apply NoDup_fmap_2_strong.
  - by intros ?? _ _ [=].
  - eapply sublist_NoDup; [|apply sublist_take]. unfold students. compute_done.
Qed.

(** X3. Nothing is processed that was not submitted.  In every state of a
    run that starts clean, failures included, the submissions the database
    has accepted are, as a multiset, among the submissions the frontend has
    sent; no submission is accepted twice, and each is the submission of one
    of the three names. *)
Theorem accepted_were_sent {env : environment} (sched : list (actor * bool))
    (s : system) :
  run sched (init_system env) = Some s →
  clean_start env (trace s) →
  accepted (trace s) ⊆+ submissions_sent (trace s)
  ∧ NoDup (accepted (trace s))
  ∧ (length (accepted (trace s)) ≤ 3)%nat
  ∧ Forall (λ msg, ∃ name, name ∈ students ∧ msg = submission name)
           (accepted (trace s)).
Proof.
  intros Hrun Hclean.
  destruct (run_invariant _ _ Hrun Hclean)
    as [_ _ (n & Hsent & _) _ _ [_ Hs] _ _ _].
  assert (accepted (trace s) ⊆+ submissions_sent (trace s)) as Hsub.
  { etrans; [|exact Hs]. by apply submseteq_inserts_r. }
  split_and!.
  - done.
  - apply (submseteq_NoDup_l _ _ Hsub). rewrite Hsent.
    apply submissions_NoDup.
  - apply submseteq_length in Hsub. rewrite Hsent, List.length_map,
      length_take in Hsub. cbn in Hsub. lia.
  - apply Forall_forall. intros msg Hin.
    eapply elem_of_submseteq in Hin; [|exact Hsub]. rewrite Hsent in Hin.
    apply list_elem_of_In, List.in_map_iff in Hin as (name & <- & Hin).
    exists name. split; [|done].
    apply list_elem_of_In in Hin.
    rewrite <- (take_drop n students). apply elem_of_app. by left.
Qed.

Lemma fatal_tail (a : actor) (l l1 l2 : list event) (e0 e : event) :
  Forall (λ e, fatal_call e = false) l →
  l ++ [e0; perror a; exit 1] = l1 ++ e :: l2 →
  fatal_call e = true →
  l2 = [perror a; exit 1].
Proof.
  intros Hclean Heq He.
  apply app_eq_inv in Heq as [(k & -> & Hk)|(k & -> & Hk)].
  - destruct k as [|x k]; cbn in Hk; simplify_eq; [done|].
    rewrite Forall_app, Forall_cons in Hclean.
    destruct Hclean as (_ & Hx & _). congruence.
  - destruct k as [|x1 [|x2 [|x3 k]]]; cbn in Hk; simplify_eq; try done.
    by destruct k.
Qed.

(** X4. Fail fast.  For each child, in every reachable state: its exit
    status, if it has one, is 0 or 1; it is 1 exactly when one of the calls
    whose value the code tests (every [mq_receive], every [mq_send] but the
    put-back) returned -1; and such a call is followed by [perror],
    [exit(1)] and nothing else. *)
Theorem fail_fast {env : environment} (sched : list (actor * bool)) (s : system) (a : actor) :
  run sched (init_system env) = Some s →
  a ≠ Main →
  (∀ code, status_of a s = Some code → code = 0 ∨ code = 1)
  ∧ (status_of a s = Some 1 ↔
     ∃ e, e ∈ calls_of a (trace s) ∧ fatal_call e = true)
  ∧ (∀ l1 e l2, calls_of a (trace s) = l1 ++ e :: l2 →
       fatal_call e = true →
       l2 = [perror a; exit 1] ∧ status_of a s = Some 1).
Proof.
  intros Hrun Ha.
  destruct (run_general_invariant _ _ Hrun) as [_ _ _ _ _ _ _ Hff _ _].
  specialize (Hff a Ha). cbn in Hff.
  assert (∀ l e, Forall (λ e, fatal_call e = false) l → e ∈ l →
                 fatal_call e = true → False) as Hclean.
  { intros l e Hl He Hfatal. rewrite Forall_forall in Hl.
    specialize (Hl e He). congruence. }
  destruct (status_of a s) as [code|].
  - destruct Hff as [[-> Hcalls]|(-> & l & e0 & Hcalls & He0 & Hl)].
    + split_and!.
      * intros ? [= <-]. by left.
      * split; [done|]. intros (e & He & Hfatal). by destruct (Hclean _ _ Hcalls He).
      * intros l1 e l2 Heq Hfatal. destruct (Hclean _ e Hcalls); [|done].
        rewrite Heq, elem_of_app, elem_of_cons. auto.
    + split_and!.
      * intros ? [= <-]. by right.
      * split; [|done]. intros _. exists e0. split; [|done].
        rewrite Hcalls, elem_of_app, elem_of_cons. auto.
      * intros l1 e l2 Heq Hfatal. split; [|done].
        rewrite Hcalls in Heq. by eapply fatal_tail.
  - split_and!.
    + done.
    + split; [done|]. intros (e & He & Hfatal). by destruct (Hclean _ _ Hff He).
    + intros l1 e l2 Heq Hfatal. destruct (Hclean _ e Hff); [|done].
      rewrite Heq, elem_of_app, elem_of_cons. auto.
Qed.

Lemma frontend_done env s :
  general_invariant env s →
  length (submissions_sent (trace s)) = 3%nat →
  frontend s = Some (F_exited 0).
Proof.
  intros [_ _ (n & Hsent & Hpc) _ _ _ _ Hff Hfail _] Hlen.
  specialize (Hff Frontend). cbn in Hff. unfold frontend_failed_inv in Hfail.
  rewrite Hsent, List.length_map, length_take in Hlen. cbn in Hlen.
  destruct (frontend s) as [[i m|c]|].
  - lia.
  - destruct Hff as [[-> _]|[-> _]]; [done|done|]. specialize (Hfail eq_refl).
    rewrite Hsent, List.length_map, length_take in Hfail. cbn in Hfail. lia.
  - lia.
Qed.

Lemma database_done env s :
  general_invariant env s →
  length (confirmations_sent (trace s)) = 3%nat →
  database s = Some (D_exited 0).
Proof.
  intros [_ _ _ (_ & _ & Hpc) _ _ _ Hff _ Hfail] Hlen.
  specialize (Hff Database). cbn in Hff. unfold database_failed_inv in Hfail.
  destruct (database s) as [[k|k m|k m|c]|].
  - destruct Hpc as (? & ? & Hsent). rewrite Hsent, List.length_map in Hlen. lia.
  - destruct Hpc as (? & ? & Hsent & _).
    rewrite Hsent, List.length_map in Hlen. lia.
  - destruct Hpc as (? & asg0 & name & _ & ? & _ & Hsent).
    rewrite Hsent, List.length_map in Hlen. lia.
  - destruct Hff as [[-> _]|[-> _]]; [done|done|]. specialize (Hfail eq_refl). lia.
  - destruct Hpc as [_ Hsent]. by rewrite Hsent in Hlen.
Qed.

(** X5. The frontend sends the names in the order of its array.  In every
    reachable state, whatever queue the program starts with, the submissions
    sent are an initial segment of Alice, Bob, Charlie; while the frontend
    is suspended in [mq_send], the message is the submission of the next
    name; if the frontend is in the state left with status 0 all three are
    sent, if in the state left with status 1 fewer than three; and once all
    three are sent the frontend calls [mq_send] no more and does not exit
    with status 1. *)
Theorem frontend_sends_in_order {env : environment}
    (sched : list (actor * bool)) (s : system) :
  run sched (init_system env) = Some s →
  submissions_sent (trace s) `prefix_of` map submission students
  ∧ (∀ i msg, frontend s = Some (F_mq_send i msg) →
       i = Z.of_nat (length (submissions_sent (trace s)))
       ∧ msg = submission (nth (length (submissions_sent (trace s)))
                               students EmptyString))
  ∧ (frontend s = Some (F_exited 0) →
     submissions_sent (trace s) = map submission students)
  ∧ (frontend s = Some (F_exited 1) →
     (length (submissions_sent (trace s)) < 3)%nat)
  ∧ (submissions_sent (trace s) = map submission students →
     frontend s ≠ Some (F_exited 1)
     ∧ ∀ i msg, frontend s ≠ Some (F_mq_send i msg)).
Proof.
  intros Hrun. pose proof (run_general_invariant _ _ Hrun) as Hgen.
  pose proof (frontend_done _ _ Hgen) as Hdone.
  destruct Hgen as [_ _ (n & Hsent & Hpc) _ _ _ _ _ Hfail _].
  split_and!.
  - rewrite Hsent. change (map ?f ?l) with (f <$> l).
    rewrite <- (take_drop n students) at 2. rewrite fmap_app.
    by apply prefix_app_r.
  - intros i msg Hf. rewrite Hf in Hpc. destruct Hpc as (-> & Hn & ->).
    rewrite Hsent, List.length_map, length_take. cbn [length students].
    by rewrite Nat.min_l by lia.
  - intros Hf. rewrite Hf in Hpc. by rewrite Hsent, (Hpc eq_refl).
  - exact Hfail.
  - intros Heq. rewrite Hdone by (by rewrite Heq). done.
Qed.

(** X6. Success travels upstream.  In a run that starts clean: if the
    database is in the state left with status 0, the frontend has sent its
    three submissions and does not exit with status 1; if the logger is in
    the state left with status 0, the frontend has sent its three
    submissions, the database its three confirmations, the records logged
    are the assignments made, each once, and neither the frontend nor the
    database exits with status 1. *)
Theorem downstream_exit_implies_upstream {env : environment}
    (sched : list (actor * bool)) (s : system) :
  run sched (init_system env) = Some s →
  clean_start env (trace s) →
  (database s = Some (D_exited 0) →
   submissions_sent (trace s) = map submission students
   ∧ frontend s ≠ Some (F_exited 1))
  ∧ (logger s = Some (L_exited 0) →
     submissions_sent (trace s) = map submission students
     ∧ length (confirmations_sent (trace s)) = 3%nat
     ∧ logged (trace s) ≡ₚ assigned (trace s)
     ∧ frontend s ≠ Some (F_exited 1)
     ∧ database s ≠ Some (D_exited 1)).
Proof.
  intros Hrun Hclean. pose proof (run_invariant _ _ Hrun Hclean) as Hinv.
  pose proof (run_general_invariant _ _ Hrun) as Hgen.
  pose proof (frontend_done _ _ Hgen) as Hfdone.
  pose proof (database_done _ _ Hgen) as Hddone.
  pose proof (confirmations_sent_le_accepted _ (inv_database _ Hinv)) as Hca.
  pose proof (submissions_sent_le _ (inv_frontend _ Hinv)) as Hs3.
  pose proof (assigned_le _ (inv_database _ Hinv)) as Ha3.
  pose proof (logged_submseteq_assigned _ Hinv) as Hla.
  destruct Hinv as [_ _ (n & Hsent & Hfpc) (_ & Hnames & Hd) Hl [Hc Hs] _ _ _].
  apply submseteq_length in Hc, Hs. rewrite List.length_app in Hc, Hs.
  rewrite List.length_map in Hc.
  apply (f_equal (@length _)) in Hnames. rewrite !List.length_map in Hnames.
  assert (length (submissions_sent (trace s)) = 3%nat →
          submissions_sent (trace s) = map submission students
          ∧ frontend s ≠ Some (F_exited 1)) as Hall.
  { intros Hlen. specialize (Hfdone Hlen). rewrite Hfdone in Hfpc.
    rewrite Hfdone, Hsent, (Hfpc eq_refl). done. }
  split.
  - intros Hd0. rewrite Hd0 in Hd. destruct Hd as (_ & _ & Hd).
    destruct (Hd eq_refl) as [Hlen _]. apply Hall. lia.
  - intros Hl0. unfold logger_inv in Hl. rewrite Hl0 in Hl.
    destruct Hl as [_ Hl]. specialize (Hl eq_refl).
    assert (length (confirmations_sent (trace s)) = 3%nat) as Hc3 by lia.
    destruct Hall as [Hsub Hf1]; [lia|].
    split_and!; try done.
    + apply submseteq_length_Permutation; [done|lia].
    + by rewrite (Hddone Hc3).
Qed.

(** X7. Who sends what.  In every state of a run that starts clean: the
    frontend has only called [mq_send] with submissions (type 1, id 0);
    every message the database has passed to [mq_send] has type 2, and what
    it put back is a confirmation it had sent before; the logger has only
    put back messages of type 1 that the frontend had sent.  So the database
    never puts a submission on the queue and the logger never a
    confirmation. *)
Theorem senders_send_their_own {env : environment}
    (sched : list (actor * bool)) (s : system) :
  run sched (init_system env) = Some s →
  clean_start env (trace s) →
  (∀ site msg r, (site, msg, r) ∈ sends_of Frontend (trace s) →
     site = Submit ∧ msg_type msg = 1 ∧ rollNo msg = 0)
  ∧ (∀ site msg r, (site, msg, r) ∈ sends_of Database (trace s) →
       msg_type msg = 2
       ∧ (site = Confirm
          ∨ (site = Requeue ∧ msg ∈ confirmations_sent (trace s))))
  ∧ (∀ site msg r, (site, msg, r) ∈ sends_of Logger (trace s) →
       site = Requeue ∧ msg_type msg = 1
       ∧ msg ∈ submissions_sent (trace s)).
Proof.
  intros Hrun Hclean.
  destruct (run_further_invariant _ _ Hrun Hclean)
    as [_ _ _ _ _ _ (HF & HD & HL)].
  rewrite Forall_forall in HF, HD, HL.
  split_and!; intros site msg r Hin.
  - apply (HF _ Hin).
  - apply (HD _ Hin).
  - apply (HL _ Hin).
Qed.

(** X10. Elapsed seconds.  The value of [getElapsedSeconds] always fits an
    [int].  It is the exact difference between the current time and
    [startTime] whenever that difference fits an [int]: not negative while
    the clock has not gone back before [startTime] and fewer than 2^31
    seconds have passed, negative when the clock has been set back before
    [startTime], and not decreasing as the clock advances within the first
    2^31 seconds.  At exactly 2^31 seconds the conversion to [int] wraps to
    -2^31, and at every time the value repeats after 2^32 seconds. *)
Theorem elapsed_seconds_exact (startTime now : Z) :
  - 2 ^ 31 ≤ getElapsedSeconds startTime now < 2 ^ 31
  ∧ (- 2 ^ 31 ≤ now - startTime < 2 ^ 31 →
     getElapsedSeconds startTime now = now - startTime)
  ∧ (startTime ≤ now < startTime + 2 ^ 31 →
     0 ≤ getElapsedSeconds startTime now)
  ∧ (startTime - 2 ^ 31 ≤ now < startTime →
     getElapsedSeconds startTime now < 0)
  ∧ (∀ later, startTime ≤ now → now ≤ later → later < startTime + 2 ^ 31 →
       getElapsedSeconds startTime now ≤ getElapsedSeconds startTime later)
  ∧ getElapsedSeconds startTime (startTime + 2 ^ 31) = - 2 ^ 31
  ∧ getElapsedSeconds startTime (now + 2 ^ 32)
    = getElapsedSeconds startTime now.
Proof.
  unfold getElapsedSeconds.
  assert (∀ z, - 2 ^ 31 ≤ z < 2 ^ 31 → int_wrap z = z) as Hsmall.
  { intros z Hz. unfold int_wrap. rewrite Z.mod_small by lia. lia. }
  split_and!.
  - unfold int_wrap.
    pose proof (Z.mod_pos_bound (now - startTime + 2 ^ 31) (2 ^ 32)). lia.
  - unfold int_wrap.
    pose proof (Z.mod_pos_bound (now - startTime + 2 ^ 31) (2 ^ 32)). lia.
  - apply Hsmall.
  - intros Hrange. rewrite Hsmall by lia. lia.
  - intros Hrange. rewrite Hsmall by lia. lia.
  - intros later H1 H2 H3. rewrite !Hsmall by lia. lia.
  - replace (startTime + 2 ^ 31 - startTime) with (2 ^ 31) by lia. done.
  - unfold int_wrap.
    replace (now + 2 ^ 32 - startTime + 2 ^ 31)
      with (now - startTime + 2 ^ 31 + 1 * 2 ^ 32) by lia.
    by rewrite Z.mod_add.
Qed.

(** X11. Conservation in a run that starts clean.  When the three children
    exit with status 0, the frontend has sent exactly [studentCount]
    messages, the submissions of the three names in order; the database has
    accepted exactly these, each once, has made one assignment for each, and
    has sent exactly [studentCount] confirmations, those of its assignments,
    all of type 2 and pairwise different; the logger has printed exactly
    [studentCount] records, and these are the confirmations sent, each once
    (none twice, none missing).  Put-backs do not add messages: whatever any
    process put on the queue is one of these submissions or
    confirmations. *)
Theorem conservation {env : environment} (sched : list (actor * bool))
    (s : system) :
  run sched (init_system env) = Some s →
  clean_start env (trace s) →
  workers_succeeded s →
  submissions_sent (trace s) = map submission students
  ∧ length (submissions_sent (trace s)) = Z.to_nat studentCount
  ∧ Forall (λ msg, msg_type msg = 1) (submissions_sent (trace s))
  ∧ accepted (trace s) ≡ₚ submissions_sent (trace s)
  ∧ map snd (assigned (trace s)) = map studentName (accepted (trace s))
  ∧ length (assigned (trace s)) = Z.to_nat studentCount
  ∧ confirmations_sent (trace s) = map confirmation (assigned (trace s))
  ∧ length (confirmations_sent (trace s)) = Z.to_nat studentCount
  ∧ Forall (λ msg, msg_type msg = 2) (confirmations_sent (trace s))
  ∧ NoDup (confirmations_sent (trace s))
  ∧ length (logged (trace s)) = Z.to_nat studentCount
  ∧ map confirmation (logged (trace s)) ≡ₚ confirmations_sent (trace s)
  ∧ Forall (λ msg,
        (msg_type msg = 1 → msg ∈ submissions_sent (trace s))
        ∧ (msg_type msg = 2 → msg ∈ confirmations_sent (trace s)))
      (placed (trace s)).
Proof.
  intros Hrun Hclean Hok.
  destruct (successful_run _ _ Hrun Hclean Hok)
    as (Hsub & Hacc & Hlen & Hsent & Hlog & Hperm).
  destruct (run_invariant _ _ Hrun Hclean)
    as [_ _ _ (Hids & Hnames & _) _ _ _ Horigin _].
  split_and!; try done.
  - by rewrite Hsub.
  - rewrite Hsub. cbn. by repeat constructor.
  - by rewrite Hsent, List.length_map.
  - rewrite Hsent. apply List.Forall_forall. intros msg Hin.
    by apply List.in_map_iff in Hin as (p & <- & _).
  - rewrite Hsent. apply confirmations_NoDup. rewrite Hids. apply ids_NoDup.
Qed.

(** X12. The tag decides the id, in a run that starts clean.  In every state
    of such a run, every message that any process has put on the queue,
    put-backs included, and every message now on the queue, has [rollNo = 0]
    if its type is 1 and [rollNo <> 0] if its type is 2. *)
Theorem tag_determines_id {env : environment} (sched : list (actor * bool))
    (s : system) :
  run sched (init_system env) = Some s →
  clean_start env (trace s) →
  Forall well_tagged (placed (trace s)) ∧ Forall well_tagged (mq s).
Proof.
  intros Hrun Hclean.
  destruct (run_invariant _ _ Hrun Hclean) as [_ _ _ _ _ _ [Hq Hp] _ _].
  split; [done|].
  unfold in_flight in Hq. rewrite !Forall_app in Hq. tauto.
Qed.

(** ** Progress without failures *)

Lemma failed_of_fatal e : fatal_call e = true → failed_call e = true.
Proof. by destruct e as [| | | | |[]| | | |]. Qed.

Lemma calls_of_elem a e t : e ∈ calls_of a t → (a, e) ∈ t.
Proof.
  unfold calls_of. rewrite list_elem_of_omap. intros ([b e'] & Hin & Heq).
  cbn in Heq. case_decide; by simplify_eq.
Qed.

(** Without a failed queue call no child has exited with status 1. *)
Lemma status_without_failure s a code :
  fail_fast_inv s → failure_free (trace s) → a ≠ Main →
  status_of a s = Some code → code = 0.
Proof.
  intros Hff Hfree Ha Hst. specialize (Hff a Ha). cbn in Hff.
  rewrite Hst in Hff.
  destruct Hff as [[-> _]|(-> & l & e & Hcalls & He & _)]; [done|].
  assert ((a, e) ∈ trace s) as Hin.
  { apply calls_of_elem. rewrite Hcalls, elem_of_app, elem_of_cons. auto. }
  unfold failure_free in Hfree. rewrite Forall_forall in Hfree.
  specialize (Hfree _ Hin). cbn in Hfree.
  apply failed_of_fatal in He. congruence.
Qed.

Lemma pc_bounds s :
  invariant s →
  (∀ i m, frontend s = Some (F_mq_send i m) →
     (length (submissions_sent (trace s)) < 3)%nat)
  ∧ (∀ k, database s = Some (D_mq_receive k) →
       (length (accepted (trace s)) < 3)%nat)
  ∧ (∀ k m, database s = Some (D_mq_send k m) →
       (length (confirmations_sent (trace s)) < 3)%nat)
  ∧ (∀ k, logger s = Some (L_mq_receive k) →
       (length (logged (trace s)) < 3)%nat).
Proof.
  intros [_ _ (n & Hsent & Hf) (_ & Hnames & Hd) Hl _ _ _ _].
  apply (f_equal (@length _)) in Hnames. rewrite !List.length_map in Hnames.
  unfold logger_inv in Hl.
  split_and!.
  - intros i m Hpc. rewrite Hpc in Hf. destruct Hf as (_ & ? & _).
    rewrite Hsent, List.length_map, length_take. lia.
  - intros k Hpc. rewrite Hpc in Hd. lia.
  - intros k m Hpc. rewrite Hpc in Hd.
    destruct Hd as (? & asg0 & name & _ & ? & _ & ->).
    rewrite List.length_map. lia.
  - intros k Hpc. rewrite Hpc in Hl. lia.
Qed.

(** A step of a child leaves the name and the attributes of the queue
    alone. *)
Lemma worker_step_queue a ok s s' :
  a ≠ Main → step a ok s = Some s' →
  linked s' = linked s ∧ maxmsg s' = maxmsg s.
Proof. intros Ha Hstep. step_cases Hstep; done. Qed.

(** A successful step of a child that is not the receipt of a message of
    the wrong type brings the run closer to its end. *)
Lemma good_step_decreases a s s' :
  step a true s = Some s' →
  a ≠ Main → wrong_head a s = false →
  (∀ i m, frontend s = Some (F_mq_send i m) →
     (length (submissions_sent (trace s)) < 3)%nat) →
  (∀ k, database s = Some (D_mq_receive k) →
     (length (accepted (trace s)) < 3)%nat) →
  (∀ k m, database s = Some (D_mq_send k m) →
     (length (confirmations_sent (trace s)) < 3)%nat) →
  (∀ k, logger s = Some (L_mq_receive k) →
     (length (logged (trace s)) < 3)%nat) →
  failure_free (trace s) →
  failure_free (trace s') ∧ (remaining s' < remaining s)%nat.
Proof.
  intros Hstep. step_cases Hstep; try done.
  all: intros _ Hwrong HbF HbA HbC HbL Hfree.
  all: unfold wrong_head in Hwrong; fields; try congruence.
  all: repeat match goal with
         | H : negb _ = false |- _ => apply negb_false_iff in H
         end.
  all: try specialize (HbF _ _ eq_refl).
  all: try specialize (HbA _ eq_refl).
  all: try specialize (HbC _ _ eq_refl).
  all: try specialize (HbL _ eq_refl).
  all: split.
  all: try (apply failure_free_app; split; [done|];
            unfold failure_free; cbn; by repeat constructor).
  all: unfold remaining, held, submissions_sent, accepted, confirmations_sent,
         logged in *; fields.
  all: rewrite !omap_app, !List.length_app; cbn.
  all: repeat match goal with
         | H : (msg_type _ =? _) = _ |- _ => rewrite H
         end; cbn; lia.
Qed.

(** Without failures, in a run that starts clean and in a queue with more
    than three slots, either the three children are done, or one of them can
    take a step that brings the run closer to its end. *)
Lemma worker_progress s :
  invariant s → further_invariant s → failure_free (trace s) →
  status_of Main s = None → (3 < maxmsg s)%nat →
  all_forked s →
  workers_succeeded s
  ∨ ∃ a s', a ≠ Main ∧ step a true s = Some s'
      ∧ failure_free (trace s') ∧ (remaining s' < remaining s)%nat.
Proof.
  intros Hinv Hfur Hfree Halive Hslots (Hf & Hd & Hl).
  pose proof (λ msg, send_never_blocks s (maxmsg s) msg Hinv Hfur Hslots)
    as Hcap.
  destruct (pc_bounds _ Hinv) as (HbF & HbA & HbC & HbL).
  assert (∀ a s', a ≠ Main → wrong_head a s = false →
                  step a true s = Some s' →
                  workers_succeeded s
                  ∨ ∃ a s', a ≠ Main ∧ step a true s = Some s'
                      ∧ failure_free (trace s')
                      ∧ (remaining s' < remaining s)%nat) as Hgood.
  { intros a s' Ha Hw Hstep. right. exists a, s'.
    destruct (good_step_decreases a s s' Hstep Ha Hw HbF HbA HbC HbL Hfree).
    done. }
  pose proof (λ a c, status_without_failure s a c (inv_fail_fast _ Hfur) Hfree)
    as Hstatus.
  destruct (frontend s) as [[i mf|cf]|] eqn:Ef; [| |by destruct Hf].
  { assert (∃ s', step Frontend true s = Some s') as [s' Hs'].
    { cbn [step]. unfold frontend_step. rewrite Ef, Hcap.
      destruct (frontend_after_send i 0). eauto. }
    apply (Hgood Frontend s'); [done| |done].
    unfold wrong_head. by destruct (mq s). }
  destruct (database s) as [[k|k md|k md|cd]|] eqn:Ed; [| | | |by destruct Hd].
  2:{ assert (∃ s', step Database true s = Some s') as [s' Hs'].
      { cbn [step]. unfold database_step. rewrite Ed, Hcap. eauto. }
      apply (Hgood Database s'); [done| |done].
      unfold wrong_head. rewrite Ed. by destruct (mq s). }
  2:{ assert (∃ s', step Database true s = Some s') as [s' Hs'].
      { cbn [step]. unfold database_step. rewrite Ed, Hcap. eauto. }
      apply (Hgood Database s'); [done| |done].
      unfold wrong_head. rewrite Ed. by destruct (mq s). }
  all: destruct (logger s) as [[j|j ml|cl]|] eqn:El; [| | |by destruct Hl].
  all: try (assert (∃ s', step Logger true s = Some s') as [s' Hs'];
            [cbn [step]; unfold logger_step; rewrite El, Hcap; eauto|];
            apply (Hgood Logger s'); [done| |done];
            unfold wrong_head; rewrite El; by destruct (mq s)).
  all: assert (cf = 0) as ->
         by (apply (Hstatus Frontend); [done|]; cbn; by rewrite Ef).
  all: try (assert (cd = 0) as ->
              by (apply (Hstatus Database); [done|]; cbn; by rewrite Ed)).
  all: try (assert (cl = 0) as ->
              by (apply (Hstatus Logger); [done|]; cbn; by rewrite El)).
  all: pose proof (confirmations_sent_le_accepted _ (inv_database _ Hinv))
         as Hca.
  all: destruct Hinv as [_ _ (n & Hsent & Hfpc) (_ & Hnames & Hdpc) Hlpc _ _ _ _].
  all: destruct Hfur as [Hty _ _ _ _ Hloss _].
  all: destruct (Hloss Hfree Halive) as [Hs Hc].
  all: apply Permutation_length in Hs, Hc.
  all: rewrite List.length_app in Hs, Hc; rewrite List.length_map in Hc.
  all: apply (f_equal (@length _)) in Hnames;
       rewrite !List.length_map in Hnames.
  all: unfold logger_inv in Hlpc; rewrite Ef in Hfpc; rewrite Ed in Hdpc;
       rewrite El in Hlpc.
  all: specialize (Hfpc eq_refl) as ->.
  all: rewrite Hsent, List.length_map in Hs; cbn [take students length] in Hs.
  all: unfold types_inv, in_flight, held in *; rewrite Ed, El in *.
  all: cbn [app] in *; rewrite app_nil_r in *.
  all: apply Forall_app in Hty as [Hty _].
  all: destruct (mq s) as [|m q] eqn:Eq.
  all: cbn [List.filter length] in Hs, Hc.
  all: try (apply Forall_cons in Hty as [[Hm|Hm] _];
            unfold is_submission, is_confirmation in Hs, Hc;
            rewrite Hm in Hs, Hc; cbn in Hs, Hc).
  all: try (destruct Hdpc as (_ & _ & Hd0);
            destruct (Hd0 eq_refl) as [Hlen Hsent0];
            apply (f_equal (@length _)) in Hsent0;
            rewrite List.length_map in Hsent0).
  all: try (destruct Hlpc as [_ Hl0]; specialize (Hl0 eq_refl)).
  all: try lia.
  all: try (left; done).
  all: try (assert (∃ s', step Database true s = Some s') as [s' Hs'];
            [cbn [step]; unfold database_step, sys_mq_receive;
             rewrite Ed, Eq; eauto|];
            apply (Hgood Database s'); [done| |done];
            unfold wrong_head; rewrite Eq, Ed, Hm; done).
  all: try (assert (∃ s', step Logger true s = Some s') as [s' Hs'];
            [cbn [step]; unfold logger_step, sys_mq_receive;
             rewrite El, Eq; eauto|];
            apply (Hgood Logger s'); [done| |done];
            unfold wrong_head; rewrite Eq, El, Hm; done).
Qed.

Lemma run_app (l1 l2 : list (actor * bool)) : ∀ s,
  run (l1 ++ l2) s = run l1 s ≫= run l2.
Proof.
  induction l1 as [|[a ok] l1 IH]; intros s; cbn; [done|].
  destruct (step a ok s); [apply IH|done].
Qed.

Lemma run_trans (l1 l2 : list (actor * bool)) s s1 s2 :
  run l1 s = Some s1 → run l2 s1 = Some s2 → run (l1 ++ l2) s = Some s2.
Proof. intros H1 H2. by rewrite run_app, H1. Qed.

Lemma all_forked_step a s s' :
  a ≠ Main → step a true s = Some s' → all_forked s → all_forked s'.
Proof.
  intros Ha Hstep (Hf & Hd & Hl).
  destruct (worker_step_frame a true s s' Ha Hstep) as (_ & _ & _ & ? & ? & ?).
  unfold all_forked. tauto.
Qed.

(** Without failures the children can always run to completion, whatever
    state they are in. *)
Lemma workers_can_finish (n : nat) : ∀ s,
  (remaining s ≤ n)%nat →
  invariant s → further_invariant s → failure_free (trace s) →
  status_of Main s = None → (3 < maxmsg s)%nat →
  all_forked s →
  ∃ sched' s', run sched' s = Some s'
    ∧ workers_succeeded s' ∧ failure_free (trace s')
    ∧ parent s' = parent s ∧ linked s' = linked s.
Proof.
  induction n as [|n IH]; intros s Hrem Hinv Hfur Hfree Halive Hslots Hforked.
  - destruct (worker_progress s Hinv Hfur Hfree Halive Hslots Hforked)
      as [Hdone|(a & s1 & _ & _ & _ & Hlt)]; [|lia].
    by exists [], s.
  - destruct (worker_progress s Hinv Hfur Hfree Halive Hslots Hforked)
      as [Hdone|(a & s1 & Ha & Hstep & Hfree1 & Hlt)]; [by exists [], s|].
    destruct (worker_step_frame a true s s1 Ha Hstep) as (Hp & _).
    destruct (worker_step_queue a true s s1 Ha Hstep) as [Hlnk Hmax].
    destruct (IH s1) as (sched1 & s' & Hrun & Hdone & Hfree' & Hparent & Hlnk').
    + lia.
    + eauto using invariant_step.
    + eauto using further_invariant_step.
    + done.
    + unfold status_of in *. by rewrite Hp.
    + by rewrite Hmax.
    + eauto using all_forked_step.
    + exists ((a, true) :: sched1), s'. cbn. rewrite Hstep.
      split_and!; try done; congruence.
Qed.

(** The parent gets from any point before its first [wait] to that [wait];
    the first [mq_unlink] may fail. *)
Lemma main_reaches_wait s :
  failure_free (trace s) →
  match parent s with
  | M_wait _ | M_mq_close | M_mq_unlink | M_exited _ => False
  | _ => True
  end →
  ∃ sched' s', run sched' s = Some s' ∧ parent s' = M_wait 0
    ∧ failure_free (trace s').
Proof.
  intros Hfree Hpc. destruct s as [lnk q cap pc f d l t]. cbn in *.
  destruct pc; try done.
  1: exists ((Main, false) :: replicate 4 (Main, true)).
  2: exists (replicate 4 (Main, true)).
  3: exists (replicate 3 (Main, true)).
  4: exists (replicate 2 (Main, true)).
  5: exists (replicate 1 (Main, true)).
  all: destruct lnk.
  all: eexists; split; [reflexivity|]; split; [done|]; cbn.
  all: rewrite <- ?app_assoc.
  all: apply failure_free_app; split; [done|].
  all: unfold failure_free; cbn; by repeat constructor.
Qed.

(** Once the children are done, successful calls take the parent to the
    end. *)
Lemma main_finishes s :
  failure_free (trace s) → workers_succeeded s → linked s = true →
  match parent s with
  | M_wait k => (k < 3)%nat
  | M_mq_close | M_mq_unlink => True
  | _ => False
  end →
  ∃ sched' s', run sched' s = Some s' ∧ parent s' = M_exited 0
    ∧ workers_succeeded s' ∧ failure_free (trace s').
Proof.
  intros Hfree (Hf & Hd & Hl) Hlnk Hpc. destruct s as [lnk q cap pc f d l t].
  cbn in *. subst. destruct pc as [| | | | |k| | |]; try done.
  1: assert (k = 0 ∨ k = 1 ∨ k = 2)%nat as [->|[->| ->]] by lia.
  1: exists (replicate 5 (Main, true)).
  2: exists (replicate 4 (Main, true)).
  3: exists (replicate 3 (Main, true)).
  4: exists (replicate 2 (Main, true)).
  5: exists (replicate 1 (Main, true)).
  all: eexists; split; [reflexivity|]; split; [done|]; split; [done|]; cbn.
  all: rewrite <- ?app_assoc.
  all: apply failure_free_app; split; [done|].
  all: unfold failure_free; cbn; by repeat constructor.
Qed.

Lemma created_by_open_mono env t t' :
  created_by_open env t → created_by_open env (t ++ t').
Proof.
  intros [->|Hfirst]; [by left|]. right.
  rewrite first_unlink_app; [done|]. by rewrite Hfirst.
Qed.

(** X8. Completion stays possible.  From every reachable state of a run in
    which the queue is created by [mq_open], no queue call has failed and
    [main] has not terminated, some schedule leads to the end: the three
    children exit with status 0, three records are logged and [main] returns
    0.  In particular such a state is never a deadlock. *)
Theorem can_always_complete {env : environment} (sched : list (actor * bool))
    (s : system) :
  run sched (init_system env) = Some s →
  created_by_open env (trace s) →
  failure_free (trace s) →
  status_of Main s = None →
  ∃ sched' s', run sched' s = Some s'
    ∧ parent s' = M_exited 0
    ∧ workers_succeeded s'
    ∧ length (logged (trace s')) = 3%nat
    ∧ failure_free (trace s').
Proof.
  intros Hrun Hcreated Hfree Hmain.
  assert (∃ l1 s1, run l1 s = Some s1 ∧ failure_free (trace s1)
            ∧ match parent s1 with
              | M_wait _ | M_mq_close | M_mq_unlink => True
              | _ => False
              end) as (l1 & s1 & Hrun1 & Hfree1 & Hpc1).
  { destruct (parent s) eqn:Hpc; cbn in Hmain; rewrite ?Hpc in Hmain;
      try discriminate.
    1-5: destruct (main_reaches_wait s Hfree) as (l1 & s1 & ? & Hp & ?);
      [by rewrite Hpc|]; exists l1, s1; by rewrite Hp.
    all: exists [], s; by rewrite Hpc. }
  pose proof (run_trans _ _ _ _ _ Hrun Hrun1) as Hrun1'.
  assert (created_by_open env (trace s1)) as Hcreated1.
  { destruct (run_trace _ _ _ Hrun1) as [t ->].
    by apply created_by_open_mono. }
  destruct (run_invariants _ _ Hrun1' (created_clean _ _ Hcreated1))
    as [Hinv1 Hfur1].
  pose proof (run_general_invariant _ _ Hrun1') as Hgen1.
  assert (all_forked s1 ∧ match parent s1 with
                           | M_wait k => (k < 3)%nat
                           | _ => True
                           end) as [Hforked Hk].
  { destruct Hinv1 as [[r0 Hm] _ _ _ _ _ _ _ _].
    destruct (parent s1); try done.
    - destruct Hm as (_ & ? & ? & ? & _ & ?). by split.
    - destruct Hm as [_ Hex]. apply exited_children_3 in Hex
        as (cf & cd & cl & Hf & Hd & Hl).
      split; [|done]. unfold all_forked. rewrite Hf, Hd, Hl. eauto.
    - destruct Hm as [_ Hex]. apply exited_children_3 in Hex
        as (cf & cd & cl & Hf & Hd & Hl).
      split; [|done]. unfold all_forked. rewrite Hf, Hd, Hl. eauto. }
  assert (status_of Main s1 = None ∧ linked s1 = true
          ∧ (3 < maxmsg s1)%nat) as (Halive1 & Hlnk1 & Hslots1).
  { destruct Hgen1 as [_ _ _ _ _ _ Hstart _ _ _].
    unfold start_inv, status_of in *.
    destruct (parent s1); try done.
    all: destruct Hstart as [? Hmax]; rewrite (Hmax Hcreated1).
    all: unfold mq_maxmsg; split_and!; (done || lia). }
  destruct (workers_can_finish (remaining s1) s1 (le_n _) Hinv1 Hfur1 Hfree1
              Halive1 Hslots1 Hforked)
    as (l2 & s2 & Hrun2 & Hdone2 & Hfree2 & Hpc2 & Hlnk2).
  destruct (main_finishes s2 Hfree2 Hdone2)
    as (l3 & s3 & Hrun3 & Hpc3 & Hdone3 & Hfree3).
  { congruence. }
  { rewrite Hpc2. by destruct (parent s1). }
  exists (l1 ++ l2 ++ l3), s3.
  pose proof (run_trans _ _ _ _ _ Hrun1 (run_trans _ _ _ _ _ Hrun2 Hrun3))
    as Hall.
  split_and!; try done.
  pose proof (run_general_invariant _ _ (run_trans _ _ _ _ _ Hrun Hall))
    as Hgen3.
  destruct Hgen3 as [_ _ _ _ Hl _ _ _ _ _]. unfold logger_inv in Hl.
  destruct Hdone3 as (_ & _ & Hl3). rewrite Hl3 in Hl. by apply Hl.
Qed.

Lemma requeue_cycle_once (s : system) (c b : studentMessage) (k j : Z) :
  mq s = [c; b] → (2 ≤ maxmsg s)%nat → msg_type c ≠ 1 → msg_type b ≠ 2 →
  database s = Some (D_mq_receive k) → k < studentCount →
  logger s = Some (L_mq_receive j) → j < studentCount →
  run requeue_cycle s
  = Some {| linked := linked s; mq := [c; b]; maxmsg := maxmsg s;
            parent := parent s; frontend := frontend s;
            database := database s; logger := logger s;
            trace := trace s ++ [(Database, mq_receive (Some c));
                                 (Logger, mq_receive (Some b));
                                 (Database, mq_send Requeue c 0);
                                 (Logger, mq_send Requeue b 0)] |}.
Proof.
  intros Hq Hcap Hc Hb Hd Hk Hl Hj. destruct s as [lnk q cap pc f d l t].
  cbn in *. subst. destruct cap as [|[|slots]]; [lia|lia|].
  apply Z.eqb_neq in Hc, Hb. apply Z.ltb_lt in Hk, Hj.
  unfold database_step, logger_step, database_after_receive,
    logger_after_receive, database_after_requeue, logger_after_requeue,
    database_loop, logger_loop, sys_mq_send, sys_mq_receive. cbn.
  rewrite Hc. cbn. rewrite Hb. cbn. rewrite Hk. cbn. rewrite Hj. cbn.
  by rewrite <- !app_assoc.
Qed.

Lemma requeue_cycle_n (c b : studentMessage) (k j : Z) (n : nat) : ∀ s,
  mq s = [c; b] → (2 ≤ maxmsg s)%nat → msg_type c ≠ 1 → msg_type b ≠ 2 →
  database s = Some (D_mq_receive k) → k < studentCount →
  logger s = Some (L_mq_receive j) → j < studentCount →
  ∃ s', run (concat (replicate n requeue_cycle)) s = Some s'
    ∧ linked s' = linked s ∧ mq s' = mq s ∧ maxmsg s' = maxmsg s
    ∧ parent s' = parent s ∧ frontend s' = frontend s
    ∧ database s' = database s ∧ logger s' = logger s
    ∧ assigned (trace s') = assigned (trace s)
    ∧ logged (trace s') = logged (trace s)
    ∧ length (trace s') = (length (trace s) + 4 * n)%nat
    ∧ (failure_free (trace s) → failure_free (trace s')).
Proof.
  induction n as [|n IH]; intros s Hq Hcap Hc Hb Hd Hk Hl Hj.
  - exists s. cbn. split_and!; (done || lia).
  - pose proof (requeue_cycle_once s c b k j Hq Hcap Hc Hb Hd Hk Hl Hj)
      as Honce.
    match type of Honce with _ = Some ?s1 =>
      destruct (IH s1 eq_refl Hcap Hc Hb Hd Hk Hl Hj)
      as (s' & Hrun & Hlnk' & Hq' & Hmax' & Hp' & Hf' & Hd' & Hl' & Ha'
          & Hlog' & Hlen' & Hfree')
    end.
    exists s'. cbn [replicate concat]. rewrite run_app, Honce. cbn [mbind option_bind].
    cbn [linked mq maxmsg parent frontend database logger trace] in *.
    split_and!; try congruence.
    + rewrite Ha'. unfold assigned. rewrite omap_app. cbn. by rewrite app_nil_r.
    + rewrite Hlog'. unfold logged. rewrite omap_app. cbn. by rewrite app_nil_r.
    + rewrite Hlen', List.length_app. cbn. lia.
    + intros Hfree. apply Hfree'. apply failure_free_app. split; [done|].
      unfold failure_free. cbn. by repeat constructor.
Qed.

(** X9. Completion is not certain.  From a reachable state with a message
    that is not a submission at the head of the queue, a message that is not
    a confirmation behind it, and database and logger both about to receive,
    the four steps of [requeue_cycle] (each takes the other's message and
    puts it back) succeed and restore the queue and every process; so they
    can be repeated any number of times, with no failure and nothing
    assigned or logged. *)
Theorem requeue_cycle_repeats {env : environment}
    (sched : list (actor * bool)) (s : system)
    (c b : studentMessage) (k j : Z) (n : nat) :
  run sched (init_system env) = Some s →
  mq s = [c; b] → msg_type c ≠ 1 → msg_type b ≠ 2 →
  database s = Some (D_mq_receive k) →
  logger s = Some (L_mq_receive j) →
  ∃ s', run (concat (replicate n requeue_cycle)) s = Some s'
    ∧ linked s' = linked s ∧ mq s' = mq s ∧ maxmsg s' = maxmsg s
    ∧ parent s' = parent s ∧ frontend s' = frontend s
    ∧ database s' = database s ∧ logger s' = logger s
    ∧ assigned (trace s') = assigned (trace s)
    ∧ logged (trace s') = logged (trace s)
    ∧ length (trace s') = (length (trace s) + 4 * n)%nat
    ∧ (failure_free (trace s) → failure_free (trace s')).
Proof.
  intros Hrun Hq Hc Hb Hd Hl.
  destruct (run_general_invariant _ _ Hrun)
    as [_ _ _ (_ & _ & Hdpc) Hlpc Hcap _ _ _ _].
  unfold logger_inv in Hlpc. rewrite Hd in Hdpc. rewrite Hl in Hlpc.
  unfold capacity_inv in Hcap. rewrite Hq in Hcap. cbn in Hcap.
  apply (requeue_cycle_n c b k j n); try done; unfold studentCount; lia.
Qed.

(** ** The life cycle of the queue *)

Lemma kinds_of_success_calls r0 (n : nat) :
  omap kind_of (take n (success_calls r0)) = take n main_script.
Proof. do 11 (destruct n as [|n]; [done|]). done. Qed.

(** From the point where the three children have terminated, the remaining
    [wait]s return and the parent arrives at [mq_close]. *)
Lemma waits_return (s : system) (k : nat) (cf cd cl : Z) :
  parent s = M_wait k → (k < 3)%nat → workers_exited s cf cd cl →
  ∃ s', run (replicate (3 - k) (Main, true)) s = Some s'
    ∧ parent s' = M_mq_close ∧ workers_exited s' cf cd cl
    ∧ linked s' = linked s ∧ mq s' = mq s ∧ maxmsg s' = maxmsg s
    ∧ calls_of Main (trace s')
      = calls_of Main (trace s) ++ replicate (3 - k) wait.
Proof.
  intros Hpc Hk (Hf & Hd & Hl). destruct s as [lnk q cap pc f d l t].
  cbn in *. subst.
  assert (k = 0 ∨ k = 1 ∨ k = 2)%nat as [->|[->| ->]] by lia.
  all: eexists; split; [reflexivity|]; fields.
  all: split_and!; try done.
  all: rewrite !calls_of_app, !calls_of_by_actor; cbn.
  all: by rewrite ?app_nil_r, <- ?app_assoc.
Qed.

(** With the queue still under its name, [mq_close] and [mq_unlink] succeed
    in turn, the name is removed and [main] returns 0. *)
Lemma teardown_returns (s : system) (cf cd cl : Z) :
  parent s = M_mq_close → linked s = true → workers_exited s cf cd cl →
  ∃ s', run [(Main, true); (Main, true)] s = Some s'
    ∧ parent s' = M_exited 0 ∧ linked s' = false
    ∧ workers_exited s' cf cd cl
    ∧ calls_of Main (trace s')
      = calls_of Main (trace s) ++ [mq_close 0; mq_unlink 0; exit 0].
Proof.
  intros Hpc Hlnk (Hf & Hd & Hl). destruct s as [lnk q cap pc f d l t].
  cbn in *. subst.
  eexists; split; [reflexivity|]; fields.
  split_and!; try done.
  rewrite !calls_of_app, !calls_of_by_actor; cbn.
  by rewrite ?app_nil_r, <- ?app_assoc.
Qed.

(** X13. Life cycle.  Whatever queue the program starts with, in every
    reachable state: the calls [main] has made are an initial segment of
    [mq_unlink], [mq_open], [fork] of the frontend, of the database, of the
    logger, three [wait]s, [mq_close], [mq_unlink]; the children only send,
    receive, print and exit, and [main] never sends or receives; the queue
    holds no more messages than its [mq_maxmsg].  When [mq_open] has
    returned the queue, the name exists and the queue holds the messages it
    inherited: none, with [mq_maxmsg] = 10, when the queue is created by that
    call.  The name exists from then on as long as [main] runs.  [mq_close]
    is called only when the three children have terminated.  When [main] has
    returned 0 it has made all ten calls, the children have terminated and
    the name is removed.  Once the children have terminated, with whatever
    status, the pending [wait]s, [mq_close] and [mq_unlink] can succeed in
    turn, and then [main] returns 0 with the name removed.  And from every
    start there is a complete run: that of [failing_schedule]. *)
Theorem coordinator_lifecycle {env : environment}
    (sched : list (actor * bool)) (s : system) :
  run sched (init_system env) = Some s →
  omap kind_of (calls_of Main (trace s)) `prefix_of` main_script
  ∧ (∀ a e, (a, e) ∈ trace s → a ≠ Main →
       kind_of e = None ∨ kind_of e = Some K_send
       ∨ kind_of e = Some K_receive)
  ∧ (∀ e, (Main, e) ∈ trace s →
       kind_of e ≠ Some K_send ∧ kind_of e ≠ Some K_receive)
  ∧ (length (mq s) ≤ maxmsg s)%nat
  ∧ (parent s = M_fork_frontend →
     linked s = true ∧ mq s = inherited env (trace s)
     ∧ (created_by_open env (trace s) → mq s = [] ∧ maxmsg s = mq_maxmsg))
  ∧ (status_of Main s = None →
     (2 ≤ length (calls_of Main (trace s)))%nat → linked s = true)
  ∧ (K_close ∈ omap kind_of (calls_of Main (trace s)) →
     ∃ cf cd cl, workers_exited s cf cd cl)
  ∧ (parent s = M_exited 0 →
     linked s = false
     ∧ omap kind_of (calls_of Main (trace s)) = main_script
     ∧ ∃ cf cd cl, workers_exited s cf cd cl)
  ∧ (∀ k cf cd cl, parent s = M_wait k → workers_exited s cf cd cl →
       ∃ s', run (replicate (3 - k) (Main, true)
                  ++ [(Main, true); (Main, true)]) s = Some s'
         ∧ parent s' = M_exited 0 ∧ linked s' = false
         ∧ workers_exited s' cf cd cl)
  ∧ (∃ s', run failing_schedule (init_system env) = Some s'
       ∧ parent s' = M_exited 0 ∧ linked s' = false
       ∧ omap kind_of (calls_of Main (trace s')) = main_script).
Proof.
  intros Hrun.
  destruct (run_general_invariant _ _ Hrun)
    as [[r0 Hmain] Halpha _ _ _ Hcap Hstart _ _ _].
  assert (∃ n, omap kind_of (calls_of Main (trace s)) = take n main_script
               ∧ ((8 < n)%nat → exited_children s = 3%nat)) as (n & Hn & Hex).
  { destruct (parent s) as [| | | | |k| | |code].
    1: destruct Hmain as [-> _]; exists 0%nat; split; [done|lia].
    1-4,6-7: destruct Hmain as [-> Hrest]; eexists;
      (split; [apply kinds_of_success_calls|]); intros; (lia || done).
    - destruct Hmain as (-> & _ & _ & _ & _ & Hk). eexists.
      split; [apply kinds_of_success_calls|]. intros; lia.
    - destruct Hmain as [(_ & -> & Hex)|(_ & n & e & -> & Hfail & Hex & _)].
      + exists 10%nat. split; [|done]. by rewrite omap_app.
      + exists (S n). rewrite omap_app, kinds_of_success_calls.
        unfold main_failures in Hfail.
        decompose_list_elem_of; simplify_eq; cbn; (split; [done|]);
          intros; (lia || apply Hex; lia). }
  unfold start_inv in Hstart.
  split_and!.
  - rewrite Hn. apply prefix_take.
  - intros a e Hin Ha. specialize (Halpha a e Hin). by destruct a.
  - intros e Hin. apply (Halpha Main e Hin).
  - done.
  - intros Hpc. rewrite Hpc in Hstart. destruct Hstart as (Hlnk & Hmax & Hq).
    split_and!; try done. intros Hcreated. split; [|by apply Hmax].
    rewrite Hq. by apply created_clean.
  - intros Halive Hlen. unfold status_of in Halive.
    destruct (parent s); try done; try tauto.
    + destruct Hmain as [Hc _]. rewrite Hc in Hlen. cbn in Hlen. lia.
    + destruct Hmain as [Hc _]. rewrite Hc in Hlen. cbn in Hlen. lia.
  - intros Hclose. apply exited_children_3, Hex.
    rewrite Hn in Hclose.
    do 9 (destruct n as [|n];
          [cbn in Hclose; decompose_list_elem_of; discriminate|]).
    lia.
  - intros Hpc. rewrite Hpc in Hmain, Hstart. cbn in Hmain.
    destruct Hmain as [(_ & Hcalls & Hex3)|(? & _)]; [|done].
    split_and!.
    + by apply Hstart.
    + by rewrite Hcalls.
    + by apply exited_children_3.
  - intros k cf cd cl Hpc Hw. rewrite Hpc in Hmain, Hstart.
    destruct Hmain as (_ & _ & _ & _ & _ & Hk).
    destruct (waits_return s k cf cd cl Hpc Hk Hw)
      as (s1 & Hrun1 & Hpc1 & Hw1 & Hlnk1 & _).
    destruct (teardown_returns s1 cf cd cl Hpc1) as (s2 & Hrun2 & ? & ? & ? & _).
    { rewrite Hlnk1. tauto. }
    { done. }
    exists s2. split; [|done]. by rewrite run_app, Hrun1.
  - destruct env; eexists; (split; [vm_compute; reflexivity|]); done.
Qed.

(** ** The hypotheses of the further properties are met by concrete runs *)

Lemma queue_never_full_witness :
  run crossed_schedule (init_system no_queue) = Some crossed
  ∧ clean_start no_queue (trace crossed)
  ∧ length (mq crossed) = 2%nat
  ∧ ∀ msg, sys_mq_send mq_maxmsg true msg (mq crossed)
           = Some (mq crossed ++ [msg], 0).
Proof.
  assert (run crossed_schedule (init_system no_queue) = Some crossed) as Hrun
    by (vm_compute; reflexivity).
  assert (clean_start no_queue (trace crossed)) as Hclean by reflexivity.
  split; [exact Hrun|]. split; [exact Hclean|]. split; [reflexivity|].
  exact (proj2 (proj2 (proj2 (queue_never_full crossed_schedule crossed
                                Hrun Hclean)))).
Defined.

Lemma logged_were_assigned_witness :
  run nominal_schedule (init_system no_queue) = Some nominal_final
  ∧ clean_start no_queue (trace nominal_final)
  ∧ logged (trace nominal_final) ⊆+ assigned (trace nominal_final).
Proof.
  assert (run nominal_schedule (init_system no_queue) = Some nominal_final)
    as Hrun by (vm_compute; reflexivity).
  assert (clean_start no_queue (trace nominal_final)) as Hclean
    by reflexivity.
  split; [exact Hrun|]. split; [exact Hclean|].
  exact (proj1 (logged_were_assigned nominal_schedule nominal_final
                  Hrun Hclean)).
Defined.

Lemma accepted_were_sent_witness :
  run nominal_schedule (init_system no_queue) = Some nominal_final
  ∧ clean_start no_queue (trace nominal_final)
  ∧ accepted (trace nominal_final) ⊆+ submissions_sent (trace nominal_final)
  ∧ NoDup (accepted (trace nominal_final)).
Proof.
  assert (run nominal_schedule (init_system no_queue) = Some nominal_final)
    as Hrun by (vm_compute; reflexivity).
  assert (clean_start no_queue (trace nominal_final)) as Hclean
    by reflexivity.
  split; [exact Hrun|]. split; [exact Hclean|].
  destruct (accepted_were_sent nominal_schedule nominal_final Hrun Hclean)
    as (Hsub & Hnd & _).
  exact (conj Hsub Hnd).
Defined.

Lemma fail_fast_witness :
  run failing_schedule (init_system no_queue) = Some failed_final
  ∧ Frontend ≠ Main
  ∧ status_of Frontend failed_final = Some 1
  ∧ ∃ e, e ∈ calls_of Frontend (trace failed_final) ∧ fatal_call e = true.
Proof.
  assert (run failing_schedule (init_system no_queue) = Some failed_final)
    as Hrun by (vm_compute; reflexivity).
  assert (Frontend ≠ Main) as Hne by discriminate.
  split; [exact Hrun|]. split; [exact Hne|]. split; [reflexivity|].
  destruct (fail_fast failing_schedule failed_final Frontend Hrun Hne)
    as (_ & Hiff & _).
  exact (proj1 Hiff eq_refl).
Defined.

Lemma frontend_sends_in_order_witness :
  run nominal_schedule (init_system no_queue) = Some nominal_final
  ∧ submissions_sent (trace nominal_final) `prefix_of` map submission students.
Proof.
  assert (run nominal_schedule (init_system no_queue) = Some nominal_final)
    as Hrun by (vm_compute; reflexivity).
  split; [exact Hrun|].
  exact (proj1 (frontend_sends_in_order nominal_schedule nominal_final Hrun)).
Defined.

Lemma downstream_exit_implies_upstream_witness :
  run nominal_schedule (init_system no_queue) = Some nominal_final
  ∧ clean_start no_queue (trace nominal_final)
  ∧ logger nominal_final = Some (L_exited 0)
  ∧ length (confirmations_sent (trace nominal_final)) = 3%nat
  ∧ logged (trace nominal_final) ≡ₚ assigned (trace nominal_final).
Proof.
  assert (run nominal_schedule (init_system no_queue) = Some nominal_final)
    as Hrun by (vm_compute; reflexivity).
  assert (clean_start no_queue (trace nominal_final)) as Hclean
    by reflexivity.
  split; [exact Hrun|]. split; [exact Hclean|]. split; [reflexivity|].
  destruct (proj2 (downstream_exit_implies_upstream nominal_schedule
                     nominal_final Hrun Hclean) eq_refl)
    as (_ & Hlen & Hperm & _).
  exact (conj Hlen Hperm).
Defined.

Lemma senders_send_their_own_witness :
  run nominal_schedule (init_system no_queue) = Some nominal_final
  ∧ clean_start no_queue (trace nominal_final)
  ∧ ∀ site msg r, (site, msg, r) ∈ sends_of Database (trace nominal_final) →
      msg_type msg = 2.
Proof.
  assert (run nominal_schedule (init_system no_queue) = Some nominal_final)
    as Hrun by (vm_compute; reflexivity).
  assert (clean_start no_queue (trace nominal_final)) as Hclean
    by reflexivity.
  split; [exact Hrun|]. split; [exact Hclean|].
  destruct (senders_send_their_own nominal_schedule nominal_final Hrun Hclean)
    as (_ & HD & _).
  intros site msg r Hin. exact (proj1 (HD site msg r Hin)).
Defined.

Lemma can_always_complete_witness :
  run crossed_schedule (init_system no_queue) = Some crossed
  ∧ created_by_open no_queue (trace crossed)
  ∧ failure_free (trace crossed)
  ∧ status_of Main crossed = None
  ∧ ∃ sched' s', run sched' crossed = Some s' ∧ parent s' = M_exited 0
      ∧ workers_succeeded s'.
Proof.
  assert (run crossed_schedule (init_system no_queue) = Some crossed) as Hrun
    by (vm_compute; reflexivity).
  assert (created_by_open no_queue (trace crossed)) as Hcreated
    by (left; reflexivity).
  assert (failure_free (trace crossed)) as Hfree
    by (unfold failure_free; vm_compute; repeat constructor).
  assert (status_of Main crossed = None) as Hmain by reflexivity.
  split; [exact Hrun|]. split; [exact Hcreated|]. split; [exact Hfree|].
  split; [exact Hmain|].
  destruct (can_always_complete crossed_schedule crossed Hrun Hcreated Hfree
              Hmain)
    as (sched' & s' & Hrun' & Hpc & Hdone & _).
  exists sched', s'. exact (conj Hrun' (conj Hpc Hdone)).
Defined.

Lemma requeue_cycle_repeats_witness :
  run crossed_schedule (init_system no_queue) = Some crossed
  ∧ mq crossed = [confirmation (1001, "Alice"%string);
                  submission "Bob"%string]
  ∧ database crossed = Some (D_mq_receive 1)
  ∧ logger crossed = Some (L_mq_receive 0)
  ∧ ∃ s', run (concat (replicate 5 requeue_cycle)) crossed = Some s'
      ∧ mq s' = mq crossed
      ∧ logged (trace s') = logged (trace crossed).
Proof.
  assert (run crossed_schedule (init_system no_queue) = Some crossed) as Hrun
    by (vm_compute; reflexivity).
  assert (mq crossed = [confirmation (1001, "Alice"%string);
                        submission "Bob"%string]) as Hq by reflexivity.
  assert (msg_type (confirmation (1001, "Alice"%string)) ≠ 1) as Hc
    by (vm_compute; discriminate).
  assert (msg_type (submission "Bob"%string) ≠ 2) as Hb
    by (vm_compute; discriminate).
  split; [exact Hrun|]. split; [exact Hq|]. split; [reflexivity|].
  split; [reflexivity|].
  destruct (requeue_cycle_repeats crossed_schedule crossed _ _ 1 0 5
              Hrun Hq Hc Hb eq_refl eq_refl)
    as (s' & Hrun' & _ & Hq' & _ & _ & _ & _ & _ & _ & Hlog & _).
  exists s'. exact (conj Hrun' (conj Hq' Hlog)).
Defined.

Lemma elapsed_seconds_exact_witness :
  getElapsedSeconds 100 103 = 3 ∧ getElapsedSeconds 100 97 = -3.
Proof.
  assert (- 2 ^ 31 ≤ 103 - 100 < 2 ^ 31) as Hfits by lia.
  assert (- 2 ^ 31 ≤ 97 - 100 < 2 ^ 31) as Hback by lia.
  split.
  - exact (proj1 (proj2 (elapsed_seconds_exact 100 103)) Hfits).
  - exact (proj1 (proj2 (elapsed_seconds_exact 100 97)) Hback).
Defined.

Lemma conservation_witness :
  run nominal_schedule (init_system no_queue) = Some nominal_final
  ∧ clean_start no_queue (trace nominal_final)
  ∧ workers_succeeded nominal_final
  ∧ length (submissions_sent (trace nominal_final)) = 3%nat
  ∧ length (confirmations_sent (trace nominal_final)) = 3%nat
  ∧ length (logged (trace nominal_final)) = 3%nat
  ∧ map confirmation (logged (trace nominal_final))
    ≡ₚ confirmations_sent (trace nominal_final).
Proof.
  assert (run nominal_schedule (init_system no_queue) = Some nominal_final)
    as Hrun by (vm_compute; reflexivity).
  assert (clean_start no_queue (trace nominal_final)) as Hclean
    by reflexivity.
  assert (workers_succeeded nominal_final) as Hok
    by (vm_compute; repeat split; reflexivity).
  split; [exact Hrun|]. split; [exact Hclean|]. split; [exact Hok|].
  destruct (conservation nominal_schedule nominal_final Hrun Hclean Hok)
    as (_ & Hs & _ & _ & _ & _ & _ & Hc & _ & _ & Hl & Hp & _).
  exact (conj Hs (conj Hc (conj Hl Hp))).
Defined.

Lemma tag_determines_id_witness :
  run nominal_schedule (init_system no_queue) = Some nominal_final
  ∧ clean_start no_queue (trace nominal_final)
  ∧ Forall well_tagged (placed (trace nominal_final)).
Proof.
  assert (run nominal_schedule (init_system no_queue) = Some nominal_final)
    as Hrun by (vm_compute; reflexivity).
  assert (clean_start no_queue (trace nominal_final)) as Hclean
    by reflexivity.
  split; [exact Hrun|]. split; [exact Hclean|].
  exact (proj1 (tag_determines_id nominal_schedule nominal_final Hrun Hclean)).
Defined.

Lemma coordinator_lifecycle_witness :
  run nominal_schedule (init_system no_queue) = Some nominal_final
  ∧ parent nominal_final = M_exited 0
  ∧ linked nominal_final = false
  ∧ omap kind_of (calls_of Main (trace nominal_final)) = main_script.
Proof.
  assert (run nominal_schedule (init_system no_queue) = Some nominal_final)
    as Hrun by (vm_compute; reflexivity).
  assert (parent nominal_final = M_exited 0) as Hpc by reflexivity.
  split; [exact Hrun|]. split; [exact Hpc|].
  destruct (coordinator_lifecycle nominal_schedule nominal_final Hrun)
    as (_ & _ & _ & _ & _ & _ & _ & Hdone & _).
  destruct (Hdone Hpc) as (Hlnk & Hcalls & _).
  exact (conj Hlnk Hcalls).
Defined.
